(** * SNR.py: signal-to-noise, exposure-time and surface-brightness-limit
      calculator

    Shallow embedding of [snr], [etc] and [limit] of [SNR.py], and the
    properties of the specification checked against it.

    Numbers.  Python numbers (int or float) are idealised as real numbers:
    every arithmetic operation is the exact one, so binary64 rounding,
    overflow and underflow are outside this model.  [int(math.ceil(x))] is
    the integer ceiling [Zceil] and [number_subs] is an integer.

    Exceptions.  The three exceptions the arithmetic of the module can
    raise are kept apart: [KeyError] (subscript of a table with a band it
    does not hold), [ZeroDivisionError] (true division by zero) and
    [ValueError] ([math.sqrt] of a negative number, [math.log10] of a
    non-positive one).  A function returns [Ok v] or [Raise e].  In the
    words of the specification, [KeyError] is UnknownBand, the
    [ValueError] of [math.sqrt] on the discriminant is NoRealSolution and
    that of [math.log10] is NonPhysicalResult; the code has no check that
    would raise InvalidInput.

    Console output ([print]) is not part of the model, and neither is the
    loading of the module: the embedding is of the three function bodies
    (the file places its [from __future__] imports after [import math],
    which an interpreter rejects before any function can be called). *)

From Stdlib Require Import Reals Lra Lia ZArith String List Bool.
Import ListNotations.

Local Open Scope R_scope.

(** ** Exceptions and the error monad *)

Inductive exn : Set :=
| KeyError
| ZeroDivisionError
| ValueError.

Inductive result (A : Type) : Type :=
| Ok (a : A)
| Raise (e : exn).

Arguments Ok {A} a.
Arguments Raise {A} e.

Definition bind {A B : Type} (m : result A) (k : A -> result B) : result B :=
  match m with
  | Ok a => k a
  | Raise e => Raise e
  end.

Notation "x <- m ;; k" := (bind m (fun x => k))
  (at level 61, m at next level, right associativity).

Definition is_ok {A : Type} (m : result A) : Prop := exists a, m = Ok a.

(** ** Python primitives *)

(** A [dict] with string keys, in insertion order. *)
Definition dict : Type := list (string * R).

(** [d[k]]: the value, or [KeyError]. *)
Fixpoint getitem (d : dict) (k : string) : result R :=
  match d with
  | [] => Raise KeyError
  | (k', v) :: d' => if String.eqb k k' then Ok v else getitem d' k
  end.

(** [x / y] under [from __future__ import division]. *)
Definition truediv (x y : R) : result R :=
  if Req_dec_T y 0 then Raise ZeroDivisionError else Ok (x / y).

(** [math.sqrt]. *)
Definition math_sqrt (x : R) : result R :=
  if Rlt_dec x 0 then Raise ValueError else Ok (sqrt x).

(** [math.log10]. *)
Definition math_log10 (x : R) : result R :=
  if Rle_dec x 0 then Raise ValueError else Ok (ln x / ln 10).

(** [int(math.ceil(x))]. *)
Definition math_ceil (x : R) : Z := Zceil x.

(** [10**x]. *)
Definition pow10 (x : R) : R := Rpower 10 x.

(** ** The constant tables *)

Definition sky_mu : dict := [("g"%string, 22.0); ("r"%string, 21.0)].

Definition dark_current : R := 0.04.

Definition read_noise : R := 10.0.

Definition gamma0 : dict :=
  [("g"%string, 1.79e9); ("r"%string, 1.16e9)].

Definition efficiency : dict := [("g"%string, 0.34); ("r"%string, 0.35)].

(** ** Sub-exposure accounting

    [number_subs = int(math.ceil(total_exp_time/sub_exp_time))], and the
    total exposure time after the [round_up] adjustment. *)

Definition rounded_time (round_up : bool) (total_exp_time : R)
    (number_subs : Z) (sub_exp_time : R) : R :=
  if round_up then
    if Req_dec_T total_exp_time (IZR number_subs * sub_exp_time)
    then total_exp_time
    else IZR number_subs * sub_exp_time
  else total_exp_time.

(** ** [snr] *)

Definition snr (sci_mu : R) (band : string) (total_exp_time sub_exp_time : R)
    (binning N : R) (round_up : bool) : result R :=
  g <- getitem gamma0 band ;;
  e <- getitem efficiency band ;;
  let rate_sci := g * N * e * pow10 (-0.4 * sci_mu) in
  g' <- getitem gamma0 band ;;
  e' <- getitem efficiency band ;;
  m <- getitem sky_mu band ;;
  let rate_sky := g' * N * e' * pow10 (-0.4 * m) in
  q <- truediv total_exp_time sub_exp_time ;;
  let number_subs := math_ceil q in
  let total_exp_time :=
    rounded_time round_up total_exp_time number_subs sub_exp_time in
  let signal := rate_sci * total_exp_time in
  let sky_counts := rate_sky * total_exp_time in
  let dark_counts := dark_current * total_exp_time in
  r <- math_sqrt (IZR number_subs) ;;
  let total_read_noise := r * read_noise in
  noise <- math_sqrt (signal + sky_counts + dark_counts + total_read_noise ^ 2) ;;
  truediv (binning * signal) noise.

(** ** [etc]

    The [while] loop is run with fuel: [None] means the fuel ran out before
    the loop condition became false. *)

Fixpoint etc_loop (fuel : nat) (sci_mu : R) (band : string)
    (snr_target sub_exp_time binning N : R) (number_subs : Z)
    : option (result (R * Z)) :=
  match fuel with
  | O => None
  | S fuel' =>
      match snr sci_mu band (IZR number_subs * sub_exp_time) sub_exp_time
              binning N false with
      | Raise e => Some (Raise e)
      | Ok s =>
          if Rlt_dec s snr_target
          then etc_loop fuel' sci_mu band snr_target sub_exp_time binning N
                 (number_subs + 1)
          else Some (Ok (IZR number_subs * sub_exp_time, number_subs))
      end
  end.

(** The statements of [etc] before the loop: the rescaled target and the
    first [number_subs]. *)
Definition etc_estimate (sci_mu : R) (band : string)
    (snr_target sub_exp_time binning N : R) : result (R * Z) :=
  snr_target <- truediv snr_target binning ;;
  g <- getitem gamma0 band ;;
  e <- getitem efficiency band ;;
  let rate_sci := g * N * e * pow10 (-0.4 * sci_mu) in
  g' <- getitem gamma0 band ;;
  e' <- getitem efficiency band ;;
  m <- getitem sky_mu band ;;
  let rate_sky := g' * N * e' * pow10 (-0.4 * m) in
  rn <- truediv (read_noise ^ 2) sub_exp_time ;;
  total_exp_time <-
    truediv (snr_target ^ 2 * (rate_sci + rate_sky + dark_current + rn))
      (rate_sci ^ 2) ;;
  q <- truediv total_exp_time sub_exp_time ;;
  Ok (snr_target, math_ceil q).

Definition etc (fuel : nat) (sci_mu : R) (band : string)
    (snr_target sub_exp_time binning N : R) : option (result (R * Z)) :=
  match etc_estimate sci_mu band snr_target sub_exp_time binning N with
  | Raise e => Some (Raise e)
  | Ok (snr_target', number_subs) =>
      etc_loop fuel sci_mu band snr_target' sub_exp_time binning N number_subs
  end.

(** ** [limit] *)

(** The coefficients of the quadratic in [rate_sci] and its discriminant
    [b**2 - 4*a*c]. *)
Definition quad_a (total_exp_time : R) : R := total_exp_time ^ 2.

Definition quad_b (snr_target total_exp_time : R) : R :=
  - snr_target ^ 2 * total_exp_time.

Definition quad_c (snr_target sky_counts dark_counts total_read_noise : R) : R :=
  - snr_target ^ 2 * (sky_counts + dark_counts + total_read_noise ^ 2).

Definition discriminant (a b c : R) : R := b ^ 2 - 4 * a * c.

Definition limit (band : string) (total_exp_time snr_target sub_exp_time : R)
    (binning N : R) (round_up : bool) : result R :=
  snr_target <- truediv snr_target binning ;;
  g <- getitem gamma0 band ;;
  e <- getitem efficiency band ;;
  m <- getitem sky_mu band ;;
  let rate_sky := g * N * e * pow10 (-0.4 * m) in
  q <- truediv total_exp_time sub_exp_time ;;
  let number_subs := math_ceil q in
  let total_exp_time :=
    rounded_time round_up total_exp_time number_subs sub_exp_time in
  let sky_counts := rate_sky * total_exp_time in
  let dark_counts := dark_current * total_exp_time in
  r <- math_sqrt (IZR number_subs) ;;
  let total_read_noise := r * read_noise in
  let a := quad_a total_exp_time in
  let b := quad_b snr_target total_exp_time in
  let c := quad_c snr_target sky_counts dark_counts total_read_noise in
  d <- math_sqrt (discriminant a b c) ;;
  rate_sci <- truediv (- b + d) (2 * a) ;;
  g' <- getitem gamma0 band ;;
  e' <- getitem efficiency band ;;
  x <- truediv rate_sci (g' * N * e') ;;
  l <- math_log10 x ;;
  Ok (-2.5 * l).

(** ** Auxiliary definitions for the statements *)

(** The count rate of a surface brightness [mu]:
    [gamma0[band] * N * efficiency[band] * 10**(-0.4 * mu)]. *)
Definition rate (g N e mu : R) : R := g * N * e * pow10 (-0.4 * mu).

(** The statements of [snr] that follow the two rates. *)
Definition snr_rates (rate_sci rate_sky total_exp_time sub_exp_time : R)
    (binning : R) (round_up : bool) : result R :=
  q <- truediv total_exp_time sub_exp_time ;;
  let number_subs := math_ceil q in
  let total_exp_time :=
    rounded_time round_up total_exp_time number_subs sub_exp_time in
  let signal := rate_sci * total_exp_time in
  let sky_counts := rate_sky * total_exp_time in
  let dark_counts := dark_current * total_exp_time in
  r <- math_sqrt (IZR number_subs) ;;
  let total_read_noise := r * read_noise in
  noise <- math_sqrt (signal + sky_counts + dark_counts + total_read_noise ^ 2) ;;
  truediv (binning * signal) noise.

(** The square of the noise over [t] seconds split in [n] sub-exposures. *)
Definition noise2 (rate_sci rate_sky t : R) (n : Z) : R :=
  rate_sci * t + rate_sky * t + dark_current * t + IZR n * read_noise ^ 2.

(** The SNR as the specification words it, for a band whose table entries
    are [g], [e] and [m]. *)
Definition spec_snr (g e m : R) (sci_mu total_exp_time sub_exp_time : R)
    (binning N : R) (round_up : bool) : R :=
  let rate_sci := g * N * e * pow10 (-0.4 * sci_mu) in
  let rate_sky := g * N * e * pow10 (-0.4 * m) in
  let number_subs := Zceil (total_exp_time / sub_exp_time) in
  let exact_multiple :=
    if Req_dec_T total_exp_time (IZR number_subs * sub_exp_time)
    then true else false in
  let t :=
    if round_up && negb exact_multiple
    then IZR number_subs * sub_exp_time else total_exp_time in
  let signal := rate_sci * t in
  let noise :=
    sqrt (signal + rate_sky * t + dark_current * t
          + IZR number_subs * read_noise ^ 2) in
  binning * signal / noise.

(** The closed-form estimate of the total exposure time in [etc], for a
    target [s] per unbinned pixel. *)
Definition etc_time (rate_sci rate_sky s sub_exp_time : R) : R :=
  s ^ 2 * (rate_sci + rate_sky + dark_current + read_noise ^ 2 / sub_exp_time)
  / rate_sci ^ 2.

(** The discriminant that [limit] passes to [math.sqrt], for the sky rate
    [rate_sky] and the target [s] per unbinned pixel, and the root it
    takes for [rate_sci]. *)
Definition limit_discriminant (rate_sky s total_exp_time sub_exp_time : R)
    (round_up : bool) : R :=
  let number_subs := math_ceil (total_exp_time / sub_exp_time) in
  let t := rounded_time round_up total_exp_time number_subs sub_exp_time in
  discriminant (quad_a t) (quad_b s t)
    (quad_c s (rate_sky * t) (dark_current * t)
       (sqrt (IZR number_subs) * read_noise)).

Definition limit_rate_sci (rate_sky s total_exp_time sub_exp_time : R)
    (round_up : bool) : R :=
  let number_subs := math_ceil (total_exp_time / sub_exp_time) in
  let t := rounded_time round_up total_exp_time number_subs sub_exp_time in
  (- quad_b s t + sqrt (limit_discriminant rate_sky s total_exp_time sub_exp_time round_up))
  / (2 * quad_a t).

(** * Properties *)

(** ** The tables *)

(** A band is known when the three tables hold it. *)
Definition known_band (band : string) : Prop :=
  is_ok (getitem gamma0 band) /\ is_ok (getitem efficiency band)
  /\ is_ok (getitem sky_mu band).

(** [band_entry band g e m]: the entries of [band] in [gamma0],
    [efficiency] and [sky_mu]. *)
Definition band_entry (band : string) (g e m : R) : Prop :=
  getitem gamma0 band = Ok g /\ getitem efficiency band = Ok e
  /\ getitem sky_mu band = Ok m.

Lemma getitem_gamma0_unknown band :
  band <> "g"%string -> band <> "r"%string -> getitem gamma0 band = Raise KeyError.
Proof.
  intros Hg Hr. simpl.
  destruct (String.eqb_spec band "g"); [contradiction |].
  destruct (String.eqb_spec band "r"); [contradiction | reflexivity].
Qed.

Lemma known_band_cases band :
  known_band band <-> band = "g"%string \/ band = "r"%string.
Proof.
  split.
  - intros [[g Hg] _].
    destruct (String.eqb_spec band "g") as [-> | Hng]; [now left |].
    destruct (String.eqb_spec band "r") as [-> | Hnr]; [now right |].
    rewrite getitem_gamma0_unknown in Hg by assumption. discriminate.
  - intros [-> | ->]; repeat split; eexists; reflexivity.
Qed.

Lemma unknown_band_KeyError band :
  ~ known_band band -> getitem gamma0 band = Raise KeyError.
Proof.
  intros Hk. apply getitem_gamma0_unknown; intros ->; apply Hk;
    apply known_band_cases; auto.
Qed.

Lemma known_band_entry band :
  known_band band -> exists g e m, band_entry band g e m.
Proof.
  intros [[g Hg] [[e He] [m Hm]]]. now exists g, e, m.
Qed.

Lemma band_entry_known band g e m : band_entry band g e m -> known_band band.
Proof.
  intros [Hg [He Hm]]. repeat split; eexists; eassumption.
Qed.

Lemma band_entry_pos band g e m : band_entry band g e m -> 0 < g /\ 0 < e.
Proof.
  intros H. pose proof (band_entry_known _ _ _ _ H) as Hk.
  destruct H as [Hg [He _]].
  apply known_band_cases in Hk. destruct Hk as [-> | ->];
    simpl in Hg, He; injection Hg as <-; injection He as <-; lra.
Qed.

Lemma band_entry_g : band_entry "g" 1.79e9 0.34 22.0.
Proof. repeat split. Qed.

Lemma band_entry_r : band_entry "r" 1.16e9 0.35 21.0.
Proof. repeat split. Qed.

(** ** Primitives *)

Lemma truediv_ok x y : y <> 0 -> truediv x y = Ok (x / y).
Proof.
  intros Hy. unfold truediv. destruct (Req_dec_T y 0); [contradiction | reflexivity].
Qed.

Lemma truediv_zero x : truediv x 0 = Raise ZeroDivisionError.
Proof.
  unfold truediv. destruct (Req_dec_T 0 0) as [_ | H]; [reflexivity | now elim H].
Qed.

Lemma math_sqrt_ok x : 0 <= x -> math_sqrt x = Ok (sqrt x).
Proof.
  intros Hx. unfold math_sqrt. destruct (Rlt_dec x 0); [lra | reflexivity].
Qed.

Lemma math_sqrt_neg x : x < 0 -> math_sqrt x = Raise ValueError.
Proof.
  intros Hx. unfold math_sqrt. destruct (Rlt_dec x 0); [reflexivity | lra].
Qed.

Lemma math_log10_ok x : 0 < x -> math_log10 x = Ok (ln x / ln 10).
Proof.
  intros Hx. unfold math_log10. destruct (Rle_dec x 0); [lra | reflexivity].
Qed.

Lemma pow10_pos x : 0 < pow10 x.
Proof. unfold pow10, Rpower. apply exp_pos. Qed.

Lemma pow10_lt x y : x < y -> pow10 x < pow10 y.
Proof. intros H. unfold pow10. apply Rpower_lt; lra. Qed.

Lemma pow10_0 : pow10 0 = 1.
Proof. unfold pow10. apply Rpower_O. lra. Qed.

Lemma ln10_pos : 0 < ln 10.
Proof. rewrite <- ln_1. apply ln_increasing; lra. Qed.

Lemma log10_pow10 x : ln (pow10 x) / ln 10 = x.
Proof.
  unfold pow10. rewrite ln_Rpower. field. pose proof ln10_pos. lra.
Qed.

Lemma rate_pos g N e mu : 0 < g -> 0 < e -> 0 < N -> 0 < rate g N e mu.
Proof.
  intros Hg He HN. unfold rate. pose proof (pow10_pos (-0.4 * mu)).
  repeat apply Rmult_lt_0_compat; assumption.
Qed.

Lemma rate_nonneg g N e mu : 0 < g -> 0 < e -> 0 <= N -> 0 <= rate g N e mu.
Proof.
  intros Hg He HN. unfold rate. pose proof (pow10_pos (-0.4 * mu)).
  repeat apply Rmult_le_pos; lra.
Qed.

(** ** Sub-exposure accounting *)

Lemma ceil_pos x : 0 < x -> (1 <= math_ceil x)%Z.
Proof.
  intros Hx. unfold math_ceil. destruct (Zceil_bound x) as [_ Hu].
  assert (0 < IZR (Zceil x)) by lra.
  apply lt_IZR in H. lia.
Qed.

Lemma ceil_nonpos x : x <= 0 -> (math_ceil x <= 0)%Z.
Proof.
  intros Hx. unfold math_ceil. destruct (Zceil_bound x) as [Hl _].
  assert (IZR (Zceil x) < 1) by lra.
  apply lt_IZR in H. lia.
Qed.

Lemma ceil_multiple (k : Z) sub :
  sub <> 0 -> math_ceil (IZR k * sub / sub) = k.
Proof.
  intros Hs. unfold math_ceil.
  replace (IZR k * sub / sub) with (IZR k) by (field; assumption).
  apply Zceil_eq. lra.
Qed.

Lemma ceil_covers x sub : 0 < sub -> x <= IZR (math_ceil (x / sub)) * sub.
Proof.
  intros Hs. unfold math_ceil. set (q := x / sub).
  destruct (Zceil_bound q) as [_ Hc].
  replace x with (q * sub) by (unfold q; field; lra).
  apply Rmult_le_compat_r; lra.
Qed.

Lemma below_ceil x sub (k : Z) :
  0 < sub -> (k < math_ceil (x / sub))%Z -> IZR k * sub < x.
Proof.
  intros Hs. unfold math_ceil. set (q := x / sub). intros Hk.
  destruct (Zceil_bound q) as [Hc _].
  assert (Hle : IZR k <= IZR (Zceil q) - 1).
  { rewrite <- minus_IZR. apply IZR_le. lia. }
  replace x with (q * sub) by (unfold q; field; lra).
  apply Rmult_lt_compat_r; lra.
Qed.

Lemma rounded_time_true t n sub : rounded_time true t n sub = IZR n * sub.
Proof.
  unfold rounded_time. destruct (Req_dec_T t (IZR n * sub)); [assumption | reflexivity].
Qed.

Lemma rounded_time_false t n sub : rounded_time false t n sub = t.
Proof. reflexivity. Qed.

Lemma rounded_time_multiple ru n sub :
  rounded_time ru (IZR n * sub) n sub = IZR n * sub.
Proof. destruct ru; [apply rounded_time_true | reflexivity]. Qed.

(** With positive times the adjusted time is positive and there is at
    least one sub-exposure. *)
Lemma rounded_time_pos ru t sub :
  0 < t -> 0 < sub -> 0 < rounded_time ru t (math_ceil (t / sub)) sub.
Proof.
  intros Ht Hs.
  assert (Hq : 0 < t / sub) by (apply Rdiv_lt_0_compat; assumption).
  pose proof (ceil_pos _ Hq) as Hn. apply IZR_le in Hn.
  destruct ru; [rewrite rounded_time_true | rewrite rounded_time_false; assumption].
  apply Rmult_lt_0_compat; lra.
Qed.

(** ** [snr] on a known band *)

Lemma snr_entry band g e m sci_mu t sub binning N ru :
  band_entry band g e m ->
  snr sci_mu band t sub binning N ru
  = snr_rates (rate g N e sci_mu) (rate g N e m) t sub binning ru.
Proof.
  intros [Hg [He Hm]]. unfold snr. rewrite Hg, He, Hm. reflexivity.
Qed.

Lemma read_noise_total_sq (n : Z) :
  (0 <= n)%Z -> (sqrt (IZR n) * read_noise) ^ 2 = IZR n * read_noise ^ 2.
Proof.
  intros Hn. apply IZR_le in Hn.
  replace ((sqrt (IZR n) * read_noise) ^ 2)
    with (sqrt (IZR n) * sqrt (IZR n) * read_noise ^ 2) by ring.
  rewrite sqrt_sqrt by assumption. reflexivity.
Qed.

Lemma snr_rates_ok rs rk t sub binning ru :
  sub <> 0 ->
  (0 <= math_ceil (t / sub))%Z ->
  0 < noise2 rs rk (rounded_time ru t (math_ceil (t / sub)) sub)
        (math_ceil (t / sub)) ->
  snr_rates rs rk t sub binning ru
  = Ok (binning * (rs * rounded_time ru t (math_ceil (t / sub)) sub)
        / sqrt (noise2 rs rk (rounded_time ru t (math_ceil (t / sub)) sub)
                  (math_ceil (t / sub)))).
Proof.
  intros Hs Hn Hpos. unfold snr_rates.
  rewrite truediv_ok by assumption. unfold bind.
  rewrite math_sqrt_ok by (apply IZR_le in Hn; assumption).
  rewrite read_noise_total_sq by assumption.
  fold (noise2 rs rk (rounded_time ru t (math_ceil (t / sub)) sub)
          (math_ceil (t / sub))).
  rewrite math_sqrt_ok by lra.
  apply truediv_ok. apply Rgt_not_eq. apply sqrt_lt_R0. assumption.
Qed.

(** The noise is positive over a positive time with non-negative rates. *)
Lemma noise2_pos rs rk t n :
  0 <= rs -> 0 <= rk -> 0 < t -> (0 <= n)%Z -> 0 < noise2 rs rk t n.
Proof.
  intros Hrs Hrk Ht Hn. apply IZR_le in Hn. unfold noise2, dark_current, read_noise.
  assert (0 <= rs * t) by (apply Rmult_le_pos; lra).
  assert (0 <= rk * t) by (apply Rmult_le_pos; lra).
  assert (0 <= IZR n * 10.0 ^ 2) by (apply Rmult_le_pos; lra).
  lra.
Qed.

Lemma snr_entry_ok band g e m sci_mu t sub binning N ru :
  band_entry band g e m -> 0 < t -> 0 < sub -> 0 <= N ->
  snr sci_mu band t sub binning N ru
  = Ok (binning * (rate g N e sci_mu * rounded_time ru t (math_ceil (t / sub)) sub)
        / sqrt (noise2 (rate g N e sci_mu) (rate g N e m)
                  (rounded_time ru t (math_ceil (t / sub)) sub)
                  (math_ceil (t / sub)))).
Proof.
  intros Hb Ht Hs HN. rewrite (snr_entry _ _ _ _ _ _ _ _ _ _ Hb).
  destruct (band_entry_pos _ _ _ _ Hb) as [Hg He].
  assert (Hn : (1 <= math_ceil (t / sub))%Z)
    by (apply ceil_pos, Rdiv_lt_0_compat; assumption).
  apply snr_rates_ok; [lra | lia |].
  apply noise2_pos; [now apply rate_nonneg | now apply rate_nonneg | | lia].
  now apply rounded_time_pos.
Qed.

Lemma spec_time_rounded ru t (n : Z) sub :
  (if ru && negb (if Req_dec_T t (IZR n * sub) then true else false)
   then IZR n * sub else t) = rounded_time ru t n sub.
Proof.
  unfold rounded_time. destruct ru; simpl; [| reflexivity].
  destruct (Req_dec_T t (IZR n * sub)); reflexivity.
Qed.

(** C1.  On a known band, with positive total and sub-exposure times (and a
    count [N] of apertures that is not negative), [snr] returns
    [binning * signal / noise] as the specification words it: the two count
    rates, [number_subs = ceil(total/sub)], the total time replaced by
    [number_subs * sub] when [round_up] is set and the time is not an exact
    multiple, and [noise = sqrt(signal + sky + dark + number_subs *
    read_noise^2)]. *)
Theorem snr_returns_spec_formula band g e m sci_mu t sub binning N ru :
  band_entry band g e m -> 0 < t -> 0 < sub -> 0 <= N ->
  snr sci_mu band t sub binning N ru
  = Ok (spec_snr g e m sci_mu t sub binning N ru).
Proof.
  intros Hb Ht Hs HN.
  rewrite (snr_entry_ok _ _ _ _ _ _ _ _ _ _ Hb Ht Hs HN).
  unfold spec_snr. cbv zeta. rewrite spec_time_rounded.
  reflexivity.
Qed.

Lemma snr_returns_spec_formula_witness :
  snr 3.0 "g" 150000 600 1 1 true
  = Ok (spec_snr 1.79e9 0.34 22.0 3.0 150000 600 1 1 true).
Proof.
  apply (snr_returns_spec_formula "g" 1.79e9 0.34 22.0 3.0 150000 600 1 1 true).
  - repeat split.
  - lra.
  - lra.
  - lra.
Defined.

(** ** Unknown bands *)

(** C8.  For a band that the tables do not hold, [snr] raises [KeyError]
    whatever its other arguments, and so do [etc] and [limit] once the
    division of the target by [binning] has passed ([binning] not zero):
    no operation returns a number. *)
Theorem unknown_band_raises_KeyError band :
  ~ known_band band ->
  (forall sci_mu t sub binning N ru,
      snr sci_mu band t sub binning N ru = Raise KeyError)
  /\ (forall fuel sci_mu target sub binning N,
         binning <> 0 ->
         etc fuel sci_mu band target sub binning N = Some (Raise KeyError))
  /\ (forall t target sub binning N ru,
         binning <> 0 ->
         limit band t target sub binning N ru = Raise KeyError).
Proof.
  intros Hk. pose proof (unknown_band_KeyError _ Hk) as Hg.
  split; [| split].
  - intros. unfold snr. rewrite Hg. reflexivity.
  - intros fuel sci_mu target sub binning N Hb.
    unfold etc, etc_estimate. rewrite truediv_ok by assumption.
    unfold bind at 1. rewrite Hg. reflexivity.
  - intros t target sub binning N ru Hb.
    unfold limit. rewrite truediv_ok by assumption.
    unfold bind at 1. rewrite Hg. reflexivity.
Qed.

Lemma unknown_band_raises_KeyError_witness :
  snr 3.0 "z" 150000 600 1 1 true = Raise KeyError
  /\ etc 1 3.0 "z" 5 600 1 1 = Some (Raise KeyError)
  /\ limit "z" 150000 5 600 1 1 true = Raise KeyError.
Proof.
  assert (Hz : ~ known_band "z").
  { intros [[a Ha] _]. simpl in Ha. discriminate Ha. }
  destruct (unknown_band_raises_KeyError "z" Hz) as [Hs [He Hl]].
  split; [apply Hs | split; [apply He | apply Hl]]; lra.
Defined.

(** In [etc] and [limit] the division by [binning] comes before the first
    table lookup. *)
Lemma etc_limit_binning_zero band fuel sci_mu t target sub N ru :
  etc fuel sci_mu band target sub 0 N = Some (Raise ZeroDivisionError)
  /\ limit band t target sub 0 N ru = Raise ZeroDivisionError.
Proof.
  unfold etc, etc_estimate, limit. rewrite truediv_zero. split; reflexivity.
Qed.

(** ** Rounding up to whole sub-exposures *)

Lemma ceil_100_30 : math_ceil (100 / 30) = 4%Z.
Proof. unfold math_ceil. apply Zceil_eq. lra. Qed.

Lemma ceil_120_30 : math_ceil (120 / 30) = 4%Z.
Proof. unfold math_ceil. apply Zceil_eq. lra. Qed.

(** C9.  [snr(mu, band, 100, sub_exp_time=30, round_up=True)] counts 4
    sub-exposures and computes with a total exposure time of 120 seconds:
    it returns what [snr(mu, band, 120, sub_exp_time=30)] returns, the SNR
    over 120 seconds with the read noise of four sub-exposures. *)
Theorem snr_100_by_30_uses_120 band g e m sci_mu binning N ru :
  band_entry band g e m -> 0 <= N ->
  math_ceil (100 / 30) = 4%Z
  /\ rounded_time true 100 (math_ceil (100 / 30)) 30 = 120
  /\ snr sci_mu band 100 30 binning N true = snr sci_mu band 120 30 binning N ru
  /\ snr sci_mu band 100 30 binning N true
     = Ok (binning * (rate g N e sci_mu * 120)
           / sqrt (rate g N e sci_mu * 120 + rate g N e m * 120
                   + dark_current * 120 + 4 * read_noise ^ 2)).
Proof.
  intros Hb HN.
  assert (Hr : rounded_time true 100 (math_ceil (100 / 30)) 30 = 120).
  { rewrite rounded_time_true, ceil_100_30. lra. }
  assert (Hr' : rounded_time ru 120 (math_ceil (120 / 30)) 30 = 120).
  { rewrite ceil_120_30. replace 120 with (IZR 4 * 30) by lra.
    apply rounded_time_multiple. }
  split; [exact ceil_100_30 |]. split; [exact Hr |].
  rewrite (snr_entry_ok _ _ _ _ sci_mu 100 30 binning N true Hb) by lra.
  rewrite (snr_entry_ok _ _ _ _ sci_mu 120 30 binning N ru Hb) by lra.
  rewrite Hr, Hr', ceil_100_30, ceil_120_30. split; reflexivity.
Qed.

Lemma snr_100_by_30_uses_120_witness :
  math_ceil (100 / 30) = 4%Z
  /\ rounded_time true 100 (math_ceil (100 / 30)) 30 = 120
  /\ snr 25 "r" 100 30 1 1 true = snr 25 "r" 120 30 1 1 true
  /\ snr 25 "r" 100 30 1 1 true
     = Ok (1 * (rate 1.16e9 1 0.35 25 * 120)
           / sqrt (rate 1.16e9 1 0.35 25 * 120 + rate 1.16e9 1 0.35 21.0 * 120
                   + dark_current * 120 + 4 * read_noise ^ 2)).
Proof.
  apply (snr_100_by_30_uses_120 "r" 1.16e9 0.35 21.0 25 1 1 true).
  - repeat split.
  - lra.
Defined.

(** C10.  With [round_up] set, [snr] depends on the total exposure time
    only through [ceil(total_exp_time / sub_exp_time)]: two total times
    with the same number of sub-exposures give the same result. *)
Theorem snr_round_up_only_through_ceil sci_mu band t1 t2 sub binning N :
  math_ceil (t1 / sub) = math_ceil (t2 / sub) ->
  snr sci_mu band t1 sub binning N true = snr sci_mu band t2 sub binning N true.
Proof.
  intros Hc. unfold snr.
  destruct (getitem gamma0 band) as [g |]; [| reflexivity].
  destruct (getitem efficiency band) as [e |]; [| reflexivity].
  destruct (getitem sky_mu band) as [m |]; [| reflexivity].
  cbn [bind]. unfold truediv at 1 3.
  destruct (Req_dec_T sub 0) as [Hs | Hs]; [reflexivity |].
  cbn [bind]. rewrite !rounded_time_true, Hc. reflexivity.
Qed.

Lemma snr_round_up_only_through_ceil_witness :
  snr 25 "g" 100 30 1 1 true = snr 25 "g" 120 30 1 1 true.
Proof.
  apply (snr_round_up_only_through_ceil 25 "g" 100 120 30 1 1).
  rewrite ceil_100_30, ceil_120_30. reflexivity.
Defined.

(** ** Comparing quotients by a square root *)

Lemma div_sqrt_eq a Y : 0 <= a -> 0 < Y -> a / sqrt Y = sqrt (a * a / Y).
Proof.
  intros Ha HY. rewrite sqrt_div_alt by assumption.
  rewrite sqrt_square by assumption. reflexivity.
Qed.

Lemma cross_lt x1 x2 Y1 Y2 :
  0 < Y1 -> 0 < Y2 -> x1 * Y2 < x2 * Y1 -> x1 / Y1 < x2 / Y2.
Proof.
  intros H1 H2 H.
  replace (x1 / Y1) with (x1 * Y2 * / (Y1 * Y2)) by (field; lra).
  replace (x2 / Y2) with (x2 * Y1 * / (Y1 * Y2)) by (field; lra).
  apply Rmult_lt_compat_r; [| assumption].
  apply Rinv_0_lt_compat, Rmult_lt_0_compat; assumption.
Qed.

Lemma cross_le x1 x2 Y1 Y2 :
  0 < Y1 -> 0 < Y2 -> x1 * Y2 <= x2 * Y1 -> x1 / Y1 <= x2 / Y2.
Proof.
  intros H1 H2 H.
  replace (x1 / Y1) with (x1 * Y2 * / (Y1 * Y2)) by (field; lra).
  replace (x2 / Y2) with (x2 * Y1 * / (Y1 * Y2)) by (field; lra).
  apply Rmult_le_compat_r; [| assumption].
  apply Rlt_le, Rinv_0_lt_compat, Rmult_lt_0_compat; assumption.
Qed.

Lemma div_sqrt_lt a1 a2 Y1 Y2 :
  0 <= a1 -> 0 <= a2 -> 0 < Y1 -> 0 < Y2 ->
  a1 * a1 * Y2 < a2 * a2 * Y1 -> a1 / sqrt Y1 < a2 / sqrt Y2.
Proof.
  intros Ha1 Ha2 H1 H2 H.
  rewrite (div_sqrt_eq a1 Y1), (div_sqrt_eq a2 Y2) by assumption.
  apply sqrt_lt_1_alt. split.
  - apply Rmult_le_pos; [apply Rmult_le_pos; assumption |].
    apply Rlt_le, Rinv_0_lt_compat; assumption.
  - apply cross_lt; assumption.
Qed.

Lemma div_sqrt_le a1 a2 Y1 Y2 :
  0 <= a1 -> 0 <= a2 -> 0 < Y1 -> 0 < Y2 ->
  a1 * a1 * Y2 <= a2 * a2 * Y1 -> a1 / sqrt Y1 <= a2 / sqrt Y2.
Proof.
  intros Ha1 Ha2 H1 H2 H.
  rewrite (div_sqrt_eq a1 Y1), (div_sqrt_eq a2 Y2) by assumption.
  apply sqrt_le_1_alt. apply cross_le; assumption.
Qed.

(** A non-negative [s] against a quotient: [s = s / sqrt 1]. *)
Lemma le_div_sqrt s a Y :
  0 <= s -> 0 <= a -> 0 < Y -> s * s * Y <= a * a -> s <= a / sqrt Y.
Proof.
  intros Hs Ha HY H.
  replace s with (s / sqrt 1) at 1 by (rewrite sqrt_1; field).
  apply div_sqrt_le; lra.
Qed.

Lemma div_sqrt_lt_r s a Y :
  0 <= s -> 0 <= a -> 0 < Y -> a * a < s * s * Y -> a / sqrt Y < s.
Proof.
  intros Hs Ha HY H.
  replace s with (s / sqrt 1) by (rewrite sqrt_1; field).
  apply div_sqrt_lt; lra.
Qed.

(** ** [snr] over a whole number of sub-exposures *)

(** The noise of [k] whole sub-exposures is that of [k * sub] seconds at
    the rate [rate_sci + rate_sky + dark_current + read_noise^2 / sub]. *)
Lemma noise2_multiple rs rk sub (k : Z) :
  sub <> 0 ->
  noise2 rs rk (IZR k * sub) k
  = IZR k * sub * (rs + rk + dark_current + read_noise ^ 2 / sub).
Proof. intros Hs. unfold noise2. field. assumption. Qed.

Lemma snr_at_count band g e m sci_mu sub binning N ru (k : Z) :
  band_entry band g e m -> 0 < sub -> 0 <= N -> (1 <= k)%Z ->
  snr sci_mu band (IZR k * sub) sub binning N ru
  = Ok (binning * (rate g N e sci_mu * (IZR k * sub))
        / sqrt (noise2 (rate g N e sci_mu) (rate g N e m) (IZR k * sub) k)).
Proof.
  intros Hb Hs HN Hk.
  assert (0 < IZR k * sub).
  { apply IZR_le in Hk. apply Rmult_lt_0_compat; lra. }
  rewrite (snr_entry_ok _ _ _ _ _ _ _ _ _ _ Hb) by assumption.
  rewrite ceil_multiple by lra. rewrite rounded_time_multiple. reflexivity.
Qed.

(** With no sub-exposure at all the noise is zero and the final division
    fails. *)
Lemma snr_at_zero band g e m sci_mu sub binning N ru :
  band_entry band g e m -> sub <> 0 ->
  snr sci_mu band (IZR 0 * sub) sub binning N ru = Raise ZeroDivisionError.
Proof.
  intros Hb Hs. rewrite (snr_entry _ _ _ _ _ _ _ _ _ _ Hb). unfold snr_rates.
  rewrite truediv_ok by assumption. cbn [bind].
  rewrite ceil_multiple by assumption. rewrite rounded_time_multiple.
  rewrite math_sqrt_ok by lra. cbn [bind].
  replace (rate g N e sci_mu * (0 * sub) + rate g N e m * (0 * sub)
           + dark_current * (0 * sub) + (sqrt 0 * read_noise) ^ 2) with 0
    by (rewrite sqrt_0; ring).
  rewrite math_sqrt_ok by lra. cbn [bind]. rewrite sqrt_0. apply truediv_zero.
Qed.

(** ** [etc] *)

Lemma etc_estimate_entry band g e m sci_mu target sub binning N :
  band_entry band g e m -> binning <> 0 -> sub <> 0 -> rate g N e sci_mu <> 0 ->
  etc_estimate sci_mu band target sub binning N
  = Ok (target / binning,
        math_ceil (etc_time (rate g N e sci_mu) (rate g N e m)
                     (target / binning) sub / sub)).
Proof.
  intros [Hg [He Hm]] Hb Hs Hr. unfold etc_estimate.
  rewrite truediv_ok by assumption. cbn [bind].
  rewrite Hg, He, Hm. cbn [bind].
  rewrite truediv_ok by assumption. cbn [bind].
  fold (rate g N e sci_mu). fold (rate g N e m).
  rewrite truediv_ok by (apply pow_nonzero; assumption). cbn [bind].
  rewrite truediv_ok by assumption. reflexivity.
Qed.

Section Threshold.

Variables rs rk s sub : R.
Hypothesis rs_pos : 0 < rs.
Hypothesis rk_nonneg : 0 <= rk.
Hypothesis s_nonneg : 0 <= s.
Hypothesis sub_pos : 0 < sub.

Let K := rs + rk + dark_current + read_noise ^ 2 / sub.

Lemma K_pos : 0 < K.
Proof.
  unfold K, dark_current, read_noise.
  assert (0 < 10.0 ^ 2 / sub) by (apply Rdiv_lt_0_compat; lra).
  lra.
Qed.

Lemma etc_time_scaled : etc_time rs rk s sub * (rs * rs) = s * s * K.
Proof. unfold etc_time, K. field. lra. Qed.

(** At or above the estimate the unbinned SNR reaches [s]. *)
Lemma reaches_target (k : Z) :
  (1 <= k)%Z -> etc_time rs rk s sub <= IZR k * sub ->
  s <= rs * (IZR k * sub) / sqrt (noise2 rs rk (IZR k * sub) k).
Proof.
  intros Hk HT. apply IZR_le in Hk.
  assert (Hx : 0 < IZR k * sub) by (apply Rmult_lt_0_compat; lra).
  pose proof K_pos as HK. pose proof etc_time_scaled as Hsc.
  rewrite noise2_multiple by lra. fold K.
  apply le_div_sqrt.
  - assumption.
  - apply Rmult_le_pos; lra.
  - apply Rmult_lt_0_compat; assumption.
  - assert (Hm : etc_time rs rk s sub * (rs * rs) <= IZR k * sub * (rs * rs)).
    { apply Rmult_le_compat_r; [| assumption].
      apply Rmult_le_pos; lra. }
    rewrite Hsc in Hm.
    replace (s * s * (IZR k * sub * K)) with (IZR k * sub * (s * s * K)) by ring.
    replace (rs * (IZR k * sub) * (rs * (IZR k * sub)))
      with (IZR k * sub * (IZR k * sub * (rs * rs))) by ring.
    apply Rmult_le_compat_l; lra.
Qed.

(** Below the estimate it stays under [s]. *)
Lemma misses_target (k : Z) :
  (1 <= k)%Z -> IZR k * sub < etc_time rs rk s sub ->
  rs * (IZR k * sub) / sqrt (noise2 rs rk (IZR k * sub) k) < s.
Proof.
  intros Hk HT. apply IZR_le in Hk.
  assert (Hx : 0 < IZR k * sub) by (apply Rmult_lt_0_compat; lra).
  pose proof K_pos as HK. pose proof etc_time_scaled as Hsc.
  rewrite noise2_multiple by lra. fold K.
  apply div_sqrt_lt_r.
  - assumption.
  - apply Rmult_le_pos; lra.
  - apply Rmult_lt_0_compat; assumption.
  - assert (Hm : IZR k * sub * (rs * rs) < etc_time rs rk s sub * (rs * rs)).
    { apply Rmult_lt_compat_r; [| assumption].
      apply Rmult_lt_0_compat; assumption. }
    rewrite Hsc in Hm.
    replace (s * s * (IZR k * sub * K)) with (IZR k * sub * (s * s * K)) by ring.
    replace (rs * (IZR k * sub) * (rs * (IZR k * sub)))
      with (IZR k * sub * (IZR k * sub * (rs * rs))) by ring.
    apply Rmult_lt_compat_l; lra.
Qed.

(** Each further sub-exposure raises the SNR. *)
Lemma count_increases (k : Z) :
  (1 <= k)%Z ->
  rs * (IZR k * sub) / sqrt (noise2 rs rk (IZR k * sub) k)
  < rs * (IZR (k + 1) * sub) / sqrt (noise2 rs rk (IZR (k + 1) * sub) (k + 1)).
Proof.
  intros Hk. apply IZR_le in Hk. rewrite plus_IZR.
  assert (Hx : 0 < IZR k * sub) by (apply Rmult_lt_0_compat; lra).
  assert (Hx' : 0 < (IZR k + 1) * sub) by (apply Rmult_lt_0_compat; lra).
  pose proof K_pos as HK.
  rewrite <- plus_IZR. rewrite !noise2_multiple by lra. rewrite plus_IZR. fold K.
  apply div_sqrt_lt.
  - apply Rmult_le_pos; lra.
  - apply Rmult_le_pos; lra.
  - apply Rmult_lt_0_compat; assumption.
  - apply Rmult_lt_0_compat; assumption.
  - set (x := IZR k * sub) in *. set (y := (IZR k + 1) * sub) in *.
    assert (Hxy : x < y) by (unfold x, y; lra).
    clearbody x y.
    replace (rs * x * (rs * x) * (y * K)) with (rs * rs * K * (x * y) * x) by ring.
    replace (rs * y * (rs * y) * (x * K)) with (rs * rs * K * (x * y) * y) by ring.
    apply Rmult_lt_compat_l; [| assumption].
    repeat apply Rmult_lt_0_compat; assumption.
Qed.

End Threshold.

Lemma binned_quotient binning a d : binning * a / d = binning * (a / d).
Proof. unfold Rdiv. ring. Qed.

Section ValidInput.

Variables (band : string) (g e m sci_mu sub binning N : R).
Hypothesis entry : band_entry band g e m.
Hypothesis sub_pos : 0 < sub.
Hypothesis binning_pos : 0 < binning.
Hypothesis N_pos : 0 < N.

Let rs := rate g N e sci_mu.
Let rk := rate g N e m.

Lemma rs_pos : 0 < rs.
Proof.
  destruct (band_entry_pos _ _ _ _ entry). now apply rate_pos.
Qed.

Lemma rk_pos : 0 < rk.
Proof.
  destruct (band_entry_pos _ _ _ _ entry). now apply rate_pos.
Qed.

(** The unbinned SNR of [k] whole sub-exposures. *)
Let u (k : Z) : R :=
  rs * (IZR k * sub) / sqrt (noise2 rs rk (IZR k * sub) k).

Lemma snr_count_value ru (k : Z) :
  (1 <= k)%Z ->
  snr sci_mu band (IZR k * sub) sub binning N ru = Ok (binning * u k).
Proof.
  intros Hk. unfold u, rs, rk. rewrite <- binned_quotient.
  apply snr_at_count with (1 := entry); [assumption | lra | assumption].
Qed.

Lemma snr_count_increases (k : Z) :
  (1 <= k)%Z -> binning * u k < binning * u (k + 1).
Proof.
  intros Hk. apply Rmult_lt_compat_l; [assumption |].
  apply count_increases; [apply rs_pos | apply Rlt_le, rk_pos | assumption | assumption].
Qed.

(** Some count at or after [n0] reaches any given threshold. *)
Lemma some_count_reaches s (n0 : Z) :
  exists d : nat, s <= binning * u (n0 + Z.of_nat d).
Proof.
  pose proof rs_pos as Hrs. pose proof rk_pos as Hrk.
  set (s' := Rmax s 0 / binning).
  assert (Hs' : 0 <= s').
  { unfold s'. apply Rmult_le_pos; [apply Rmax_r |].
    apply Rlt_le, Rinv_0_lt_compat; assumption. }
  set (M := Z.max (Z.max n0 1) (Zceil (etc_time rs rk s' sub / sub))).
  exists (Z.to_nat (M - n0)).
  replace (n0 + Z.of_nat (Z.to_nat (M - n0)))%Z with M by lia.
  assert (HM1 : (1 <= M)%Z) by lia.
  assert (HT : etc_time rs rk s' sub <= IZR M * sub).
  { apply Rle_trans with (1 := ceil_covers _ _ sub_pos).
    apply Rmult_le_compat_r; [lra |]. apply IZR_le. unfold math_ceil. lia. }
  pose proof (reaches_target rs rk s' sub Hrs (Rlt_le _ _ Hrk) Hs' sub_pos M HM1 HT)
    as Hreach.
  fold (u M) in Hreach.
  apply Rle_trans with (Rmax s 0); [apply Rmax_l |].
  replace (Rmax s 0) with (binning * s') by (unfold s'; field; lra).
  apply Rmult_le_compat_l; lra.
Qed.

(** The loop stops when a count [d] steps ahead reaches the target. *)
Lemma etc_loop_stops s (d : nat) :
  forall k : Z, (1 <= k)%Z -> s <= binning * u (k + Z.of_nat d) ->
  exists (fuel : nat) (n : Z),
    (k <= n)%Z
    /\ etc_loop fuel sci_mu band s sub binning N k = Some (Ok (IZR n * sub, n)).
Proof.
  induction d as [| d IH]; intros k Hk Hreach.
  - exists 1%nat, k. split; [lia |]. simpl.
    rewrite snr_count_value by assumption.
    replace (k + Z.of_nat 0)%Z with k in Hreach by lia.
    destruct (Rlt_dec (binning * u k) s); [lra | reflexivity].
  - destruct (Rlt_dec (binning * u k) s) as [Hlt | Hge].
    + destruct (IH (k + 1)%Z) as [fuel [n [Hn Hrun]]]; [lia | |].
      { replace (k + 1 + Z.of_nat d)%Z with (k + Z.of_nat (S d))%Z by lia.
        assumption. }
      exists (S fuel), n. split; [lia |]. simpl.
      rewrite snr_count_value by assumption.
      destruct (Rlt_dec (binning * u k) s); [assumption | contradiction].
    + exists 1%nat, k. split; [lia |]. simpl.
      rewrite snr_count_value by assumption.
      destruct (Rlt_dec (binning * u k) s); [contradiction | reflexivity].
Qed.

Variable target : R.
Hypothesis target_pos : 0 < target.
Hypothesis binning_ge_1 : 1 <= binning.

Let s := target / binning.
Let n0 := math_ceil (etc_time rs rk s sub / sub).

Lemma s_pos : 0 < s.
Proof. unfold s. apply Rdiv_lt_0_compat; assumption. Qed.

Lemma s_le_target : s <= target.
Proof.
  unfold s. apply Rmult_le_reg_r with binning; [assumption |].
  replace (target / binning * binning) with target by (field; lra).
  nra.
Qed.

Lemma etc_time_pos : 0 < etc_time rs rk s sub.
Proof.
  pose proof rs_pos as Hrs. pose proof rk_pos as Hrk. pose proof s_pos as Hs.
  pose proof (K_pos rs rk sub Hrs (Rlt_le _ _ Hrk) sub_pos) as HK.
  pose proof (etc_time_scaled rs rk s sub Hrs) as Hsc.
  assert (0 < rs * rs) by (apply Rmult_lt_0_compat; assumption).
  assert (0 < s * s * (rs + rk + dark_current + read_noise ^ 2 / sub)).
  { apply Rmult_lt_0_compat; [apply Rmult_lt_0_compat; assumption | assumption]. }
  apply Rmult_lt_reg_r with (rs * rs); [assumption |]. lra.
Qed.

Lemma first_count_pos : (1 <= n0)%Z.
Proof.
  unfold n0. apply ceil_pos. apply Rdiv_lt_0_compat; [apply etc_time_pos | assumption].
Qed.

Lemma first_count_covers : etc_time rs rk s sub <= IZR n0 * sub.
Proof. unfold n0. apply ceil_covers. assumption. Qed.

Lemma below_first_count (k : Z) :
  (k < n0)%Z -> IZR k * sub < etc_time rs rk s sub.
Proof. unfold n0. apply below_ceil. assumption. Qed.

Lemma first_count_reaches : target <= binning * u n0.
Proof.
  pose proof rs_pos as Hrs. pose proof rk_pos as Hrk. pose proof s_pos as Hs.
  replace target with (binning * s) by (unfold s; field; lra).
  apply Rmult_le_compat_l; [lra |].
  apply reaches_target; try lra.
  - apply first_count_pos.
  - apply first_count_covers.
Qed.

Lemma smaller_count_misses (k : Z) :
  (1 <= k < n0)%Z -> binning * u k < target.
Proof.
  intros [Hk1 Hk].
  pose proof rs_pos as Hrs. pose proof rk_pos as Hrk. pose proof s_pos as Hs.
  replace target with (binning * s) by (unfold s; field; lra).
  apply Rmult_lt_compat_l; [lra |].
  apply misses_target; try lra.
  - assumption.
  - now apply below_first_count.
Qed.

(** [etc] returns the first count of the estimate: the loop condition is
    false the first time it is tested.  The loop compares the SNR per binned
    pixel with the target per unbinned pixel, [target / binning]; the first
    count reaches the whole [target] already, so the weaker test changes
    nothing here. *)
Lemma etc_returns_first_count fuel :
  etc (S fuel) sci_mu band target sub binning N
  = Some (Ok (IZR n0 * sub, n0)).
Proof.
  pose proof rs_pos as Hrs.
  unfold etc. rewrite (etc_estimate_entry _ _ _ _ _ _ _ _ _ entry) by (fold rs; lra).
  fold rs rk s n0. simpl.
  rewrite snr_count_value by apply first_count_pos.
  pose proof first_count_reaches. pose proof s_le_target.
  destruct (Rlt_dec (binning * u n0) s); [lra | reflexivity].
Qed.

End ValidInput.

(** C2 (amended).  On valid input [etc] returns [(n * sub, n)] with
    [n >= 1]; [snr] at that total time, [round_up] off, is at least the
    target; every smaller count [1 <= k < n] gives an SNR strictly below the
    target; and the count 0 gives no SNR at all: [snr] divides by a zero
    noise there. *)
Theorem etc_meets_target_at_first_count band g e m sci_mu target sub binning N fuel :
  band_entry band g e m ->
  0 < sub -> 0 < target -> 1 <= binning -> 1 <= N ->
  exists n : Z,
    (1 <= n)%Z
    /\ etc (S fuel) sci_mu band target sub binning N = Some (Ok (IZR n * sub, n))
    /\ (exists v,
           snr sci_mu band (IZR n * sub) sub binning N false = Ok v
           /\ target <= v)
    /\ (forall k : Z, (1 <= k < n)%Z ->
           exists v,
             snr sci_mu band (IZR k * sub) sub binning N false = Ok v
             /\ v < target)
    /\ snr sci_mu band (IZR 0 * sub) sub binning N false = Raise ZeroDivisionError.
Proof.
  intros Hb Hs Ht Hbin HN.
  assert (Hbin' : 0 < binning) by lra. assert (HN' : 0 < N) by lra.
  assert (Hn : (1 <= math_ceil (etc_time (rate g N e sci_mu) (rate g N e m)
                                  (target / binning) sub / sub))%Z).
  { eapply first_count_pos; eassumption. }
  eexists. split; [exact Hn |]. split; [| split; [| split]].
  - eapply etc_returns_first_count; eassumption.
  - eexists. split.
    + eapply snr_count_value; eassumption.
    + eapply first_count_reaches; eassumption.
  - intros k Hk. eexists. split.
    + eapply snr_count_value; try eassumption. lia.
    + eapply smaller_count_misses; eassumption.
  - apply snr_at_zero with (1 := Hb). lra.
Qed.

Lemma ceil_one x sub : 0 < x -> x <= sub -> math_ceil (x / sub) = 1%Z.
Proof.
  intros Hx Hs. unfold math_ceil. apply Zceil_eq.
  assert (0 < x / sub) by (apply Rdiv_lt_0_compat; lra).
  assert (x / sub <= 1).
  { apply Rmult_le_reg_r with sub; [lra |].
    replace (x / sub * sub) with x by (field; lra). lra. }
  lra.
Qed.

Lemma rate_mu_0 g N e : rate g N e 0 = g * N * e.
Proof.
  unfold rate. replace (-0.4 * 0) with 0 by lra. rewrite pow10_0. ring.
Qed.

Lemma rate_sky_below g N e m :
  0 < g -> 0 < e -> 0 < N -> 0 < m -> rate g N e m < g * N * e.
Proof.
  intros Hg He HN Hm. unfold rate.
  assert (Hp : pow10 (-0.4 * m) < 1).
  { rewrite <- pow10_0. apply pow10_lt. lra. }
  assert (0 < g * N * e) by (repeat apply Rmult_lt_0_compat; assumption).
  rewrite <- (Rmult_1_r (g * N * e)) at 2.
  apply Rmult_lt_compat_l; assumption.
Qed.

(** A bright source in the g band: one sub-exposure of 600 s is enough for
    a target of 1. *)
Lemma etc_bright_g_first_count :
  math_ceil (etc_time (rate 1.79e9 1 0.34 0) (rate 1.79e9 1 0.34 22.0) (1 / 1) 600
             / 600) = 1%Z.
Proof.
  pose proof (rate_mu_0 1.79e9 1 0.34) as Hrs.
  pose proof (rate_sky_below 1.79e9 1 0.34 22.0) as Hrk.
  pose proof (rate_pos 1.79e9 1 0.34 22.0) as Hrk0.
  set (rs := rate 1.79e9 1 0.34 0) in *. set (rk := rate 1.79e9 1 0.34 22.0) in *.
  assert (Hrs' : rs = 608600000) by lra.
  assert (Hrk' : 0 < rk < 608600000) by lra.
  assert (Hsc : etc_time rs rk (1 / 1) 600 * (rs * rs)
                = 1 / 1 * (1 / 1) * (rs + rk + dark_current + read_noise ^ 2 / 600)).
  { apply etc_time_scaled; lra. }
  rewrite Hrs' in Hsc. unfold dark_current, read_noise in Hsc.
  rewrite Hrs'. clearbody rs rk.
  set (T := etc_time 608600000 rk (1 / 1) 600) in *.
  apply ceil_one; lra.
Qed.

(** C2, as stated, fails where [etc] returns a single sub-exposure: the
    count before it is 0, and [snr] at a total time of 0 raises
    [ZeroDivisionError], so it yields no SNR below the target. *)
Lemma etc_single_sub_has_no_previous_snr :
  etc 1 0 "g" 1 600 1 1 = Some (Ok (IZR 1 * 600, 1%Z))
  /\ ~ (exists v,
           snr 0 "g" (IZR (1 - 1) * 600) 600 1 1 false = Ok v /\ v < 1).
Proof.
  split.
  - rewrite (etc_returns_first_count "g" 1.79e9 0.34 22.0 0 600 1 1
               band_entry_g) by lra.
    rewrite etc_bright_g_first_count. reflexivity.
  - intros [v [Hv _]]. simpl (1 - 1)%Z in Hv.
    rewrite (snr_at_zero "g" 1.79e9 0.34 22.0 0 600 1 1 false band_entry_g) in Hv
      by lra.
    discriminate Hv.
Qed.

Lemma etc_meets_target_at_first_count_witness :
  exists n : Z,
    (1 <= n)%Z
    /\ etc 1 25 "g" 5 600 1 1 = Some (Ok (IZR n * 600, n))
    /\ (exists v, snr 25 "g" (IZR n * 600) 600 1 1 false = Ok v /\ 5 <= v)
    /\ (forall k : Z, (1 <= k < n)%Z ->
           exists v, snr 25 "g" (IZR k * 600) 600 1 1 false = Ok v /\ v < 5)
    /\ snr 25 "g" (IZR 0 * 600) 600 1 1 false = Raise ZeroDivisionError.
Proof.
  apply (etc_meets_target_at_first_count "g" 1.79e9 0.34 22.0 25 5 600 1 1 0).
  - repeat split.
  - lra.
  - lra.
  - lra.
  - lra.
Defined.

(** C6.  On valid input every further sub-exposure strictly raises the SNR
    that the loop of [etc] tests; from any first count and for any finite
    threshold the loop stops after finitely many iterations; and [etc]
    itself returns as soon as it has fuel for one test of the condition. *)
Theorem etc_correction_loop_terminates band g e m sci_mu target sub binning N :
  band_entry band g e m ->
  0 < sub -> 0 < target -> 1 <= binning -> 1 <= N ->
  (forall k : Z, (1 <= k)%Z ->
      exists v v',
        snr sci_mu band (IZR k * sub) sub binning N false = Ok v
        /\ snr sci_mu band (IZR (k + 1) * sub) sub binning N false = Ok v'
        /\ v < v')
  /\ (forall (threshold : R) (n0 : Z), (1 <= n0)%Z ->
         exists (fuel : nat) (n : Z),
           (n0 <= n)%Z
           /\ etc_loop fuel sci_mu band threshold sub binning N n0
              = Some (Ok (IZR n * sub, n)))
  /\ (exists n : Z, forall fuel,
         etc (S fuel) sci_mu band target sub binning N
         = Some (Ok (IZR n * sub, n))).
Proof.
  intros Hb Hs Ht Hbin HN.
  assert (Hbin' : 0 < binning) by lra. assert (HN' : 0 < N) by lra.
  split; [| split].
  - intros k Hk. eexists. eexists. split; [| split].
    + eapply snr_count_value; eassumption.
    + eapply snr_count_value; try eassumption. lia.
    + eapply snr_count_increases; eassumption.
  - intros threshold n0 Hn0.
    destruct (some_count_reaches band g e m sci_mu sub binning N Hb Hs Hbin' HN'
                threshold n0) as [d Hd].
    eapply etc_loop_stops; eassumption.
  - eexists. intros fuel.
    eapply etc_returns_first_count; eassumption.
Qed.

Lemma etc_correction_loop_terminates_witness :
  (forall k : Z, (1 <= k)%Z ->
      exists v v',
        snr 25 "g" (IZR k * 600) 600 1 1 false = Ok v
        /\ snr 25 "g" (IZR (k + 1) * 600) 600 1 1 false = Ok v'
        /\ v < v')
  /\ (forall (threshold : R) (n0 : Z), (1 <= n0)%Z ->
         exists (fuel : nat) (n : Z),
           (n0 <= n)%Z
           /\ etc_loop fuel 25 "g" threshold 600 1 1 n0 = Some (Ok (IZR n * 600, n)))
  /\ (exists n : Z, forall fuel,
         etc (S fuel) 25 "g" 5 600 1 1 = Some (Ok (IZR n * 600, n))).
Proof.
  apply (etc_correction_loop_terminates "g" 1.79e9 0.34 22.0 25 5 600 1 1).
  - repeat split.
  - lra.
  - lra.
  - lra.
  - lra.
Defined.

(** ** [limit] *)

(** What [limit] does on a known band once the two divisions by [binning]
    and [sub_exp_time] are defined and there is no negative count. *)
Lemma limit_entry band g e m t target sub binning N ru :
  band_entry band g e m -> binning <> 0 -> sub <> 0 ->
  (0 <= math_ceil (t / sub))%Z ->
  limit band t target sub binning N ru
  = (d <- math_sqrt (limit_discriminant (rate g N e m) (target / binning) t sub ru) ;;
     rate_sci <-
       truediv
         (- quad_b (target / binning)
              (rounded_time ru t (math_ceil (t / sub)) sub) + d)
         (2 * quad_a (rounded_time ru t (math_ceil (t / sub)) sub)) ;;
     x <- truediv rate_sci (g * N * e) ;;
     l <- math_log10 x ;;
     Ok (-2.5 * l)).
Proof.
  intros [Hg [He Hm]] Hb Hs Hn. unfold limit.
  rewrite truediv_ok by assumption. cbn [bind].
  rewrite Hg, He, Hm. cbn [bind].
  rewrite truediv_ok by assumption. cbn [bind].
  rewrite math_sqrt_ok by (apply IZR_le in Hn; assumption). cbn [bind].
  reflexivity.
Qed.

(** A negative discriminant is a [ValueError] of [math.sqrt]. *)
Lemma limit_negative_discriminant band g e m t target sub binning N ru :
  band_entry band g e m -> binning <> 0 -> sub <> 0 ->
  (0 <= math_ceil (t / sub))%Z ->
  limit_discriminant (rate g N e m) (target / binning) t sub ru < 0 ->
  limit band t target sub binning N ru = Raise ValueError.
Proof.
  intros Hb Hbin Hs Hn Hd.
  rewrite (limit_entry _ _ _ _ _ _ _ _ _ _ Hb Hbin Hs Hn).
  rewrite math_sqrt_neg by assumption. reflexivity.
Qed.

Lemma discriminant_expand s t B :
  discriminant (quad_a t) (quad_b s t) (- s ^ 2 * B)
  = (s ^ 2 * t) ^ 2 + 4 * (t ^ 2 * (s ^ 2 * B)).
Proof. unfold discriminant, quad_a, quad_b. ring. Qed.

Lemma discriminant_nonneg s t B :
  0 <= B -> 0 <= discriminant (quad_a t) (quad_b s t) (- s ^ 2 * B).
Proof.
  intros HB. rewrite discriminant_expand.
  assert (0 <= (s ^ 2 * t) ^ 2) by apply pow2_ge_0.
  assert (0 <= t ^ 2) by apply pow2_ge_0.
  assert (0 <= s ^ 2) by apply pow2_ge_0.
  assert (0 <= t ^ 2 * (s ^ 2 * B))
    by (apply Rmult_le_pos; [| apply Rmult_le_pos]; assumption).
  lra.
Qed.

(** With positive times and a sky rate that is not negative the
    discriminant is not negative. *)
Lemma limit_discriminant_nonneg rk s t sub ru :
  0 <= rk -> 0 < t -> 0 < sub -> 0 <= limit_discriminant rk s t sub ru.
Proof.
  intros Hrk Ht Hs. unfold limit_discriminant, quad_c. cbv zeta.
  apply discriminant_nonneg.
  pose proof (rounded_time_pos ru t sub Ht Hs) as Ht'.
  assert (0 <= rk * rounded_time ru t (math_ceil (t / sub)) sub)
    by (apply Rmult_le_pos; lra).
  assert (0 <= (sqrt (IZR (math_ceil (t / sub))) * read_noise) ^ 2)
    by apply pow2_ge_0.
  unfold dark_current. lra.
Qed.

Lemma limit_rate_sci_pos rk s t sub ru :
  0 < t -> 0 < sub -> s <> 0 -> 0 < limit_rate_sci rk s t sub ru.
Proof.
  intros Ht Hs Hs0. unfold limit_rate_sci. cbv zeta.
  pose proof (rounded_time_pos ru t sub Ht Hs) as Ht'.
  set (t' := rounded_time ru t (math_ceil (t / sub)) sub) in *.
  assert (0 < s ^ 2) by (apply pow_lt_0_compat_l || (simpl; nra)).
  assert (0 < t' ^ 2) by (simpl; nra).
  assert (0 < - quad_b s t') by (unfold quad_b; nra).
  pose proof (sqrt_pos (limit_discriminant rk s t sub ru)).
  apply Rdiv_lt_0_compat; unfold quad_a; lra.
Qed.

Lemma limit_valid band g e m t target sub binning N ru :
  band_entry band g e m ->
  0 < t -> 0 < sub -> binning <> 0 -> 0 < N -> target <> 0 ->
  limit band t target sub binning N ru
  = Ok (-2.5 * (ln (limit_rate_sci (rate g N e m) (target / binning) t sub ru
                    / (g * N * e)) / ln 10)).
Proof.
  intros Hb Ht Hs Hbin HN Htg.
  destruct (band_entry_pos _ _ _ _ Hb) as [Hg He].
  assert (Hn : (1 <= math_ceil (t / sub))%Z)
    by (apply ceil_pos, Rdiv_lt_0_compat; assumption).
  assert (Hs0 : target / binning <> 0).
  { unfold Rdiv. apply Rmult_integral_contrapositive_currified;
      [assumption | apply Rinv_neq_0_compat; assumption]. }
  assert (Hgne : 0 < g * N * e) by (repeat apply Rmult_lt_0_compat; assumption).
  pose proof (limit_rate_sci_pos (rate g N e m) (target / binning) t sub ru Ht Hs Hs0)
    as Hpos.
  pose proof (rounded_time_pos ru t sub Ht Hs) as Ht'.
  rewrite (limit_entry _ _ _ _ _ _ _ _ _ _ Hb) by (lra || lia).
  rewrite math_sqrt_ok
    by (apply limit_discriminant_nonneg;
        [apply Rlt_le, rate_pos; assumption | assumption | assumption]).
  cbn [bind].
  rewrite truediv_ok by (unfold quad_a; simpl; nra). cbn [bind].
  rewrite truediv_ok by lra. cbn [bind].
  fold (limit_rate_sci (rate g N e m) (target / binning) t sub ru).
  rewrite math_log10_ok by (apply Rdiv_lt_0_compat; assumption).
  reflexivity.
Qed.

(** C3 (amended).  On a known band with positive times and a count [N] that
    is not negative, the discriminant that [limit] computes is never
    negative, whatever the target; with [N > 0] and a target other than 0,
    [limit] returns a value. *)
Theorem limit_discriminant_never_negative band g e m t target sub binning N ru :
  band_entry band g e m ->
  0 < t -> 0 < sub -> binning <> 0 -> 0 <= N ->
  0 <= limit_discriminant (rate g N e m) (target / binning) t sub ru
  /\ (0 < N -> target <> 0 -> is_ok (limit band t target sub binning N ru)).
Proof.
  intros Hb Ht Hs Hbin HN.
  destruct (band_entry_pos _ _ _ _ Hb) as [Hg He]. split.
  - apply limit_discriminant_nonneg; [now apply rate_nonneg | assumption | assumption].
  - intros HN' Htg. eexists. eapply limit_valid; eassumption.
Qed.

Lemma limit_discriminant_never_negative_witness :
  0 <= limit_discriminant (rate 1.79e9 1 0.34 22.0) (1000000 / 1) 0.001 600 true
  /\ (0 < 1 -> 1000000 <> 0 -> is_ok (limit "g" 0.001 1000000 600 1 1 true)).
Proof.
  apply (limit_discriminant_never_negative "g" 1.79e9 0.34 22.0 0.001 1000000 600 1 1 true).
  - repeat split.
  - lra.
  - lra.
  - lra.
  - lra.
Defined.

(** C3, as stated, has no instance: no known band, positive total and
    sub-exposure times, positive target, [binning >= 1] and [N >= 1] make
    the discriminant negative. *)
Lemma limit_no_negative_discriminant :
  ~ (exists band g e m t target sub binning N ru,
        band_entry band g e m
        /\ 0 < t /\ 0 < sub /\ 0 < target /\ 1 <= binning /\ 1 <= N
        /\ limit_discriminant (rate g N e m) (target / binning) t sub ru < 0
        /\ limit band t target sub binning N ru = Raise ValueError).
Proof.
  intros (band & g & e & m & t & target & sub & binning & N & ru
          & Hb & Ht & Hs & Htg & Hbin & HN & Hd & _).
  destruct (band_entry_pos _ _ _ _ Hb) as [Hg He].
  assert (0 <= rate g N e m) by (apply rate_nonneg; lra).
  pose proof (limit_discriminant_nonneg (rate g N e m) (target / binning) t sub ru).
  lra.
Qed.

(** ** Round trip through [snr] and [limit] *)

Lemma quotient_sq a Y : 0 < Y -> (a / sqrt Y) ^ 2 * Y = a ^ 2.
Proof.
  intros HY. pose proof (sqrt_lt_R0 Y HY) as Hq.
  pose proof (sqrt_sqrt Y (Rlt_le _ _ HY)) as Hsq.
  replace ((a / sqrt Y) ^ 2 * Y)
    with (a ^ 2 * (Y / (sqrt Y * sqrt Y))) by (field; lra).
  rewrite Hsq. field. lra.
Qed.

(** The root taken by [limit] is the rate [rs] when the target [u]
    satisfies [u^2 * (rs * t + B) = (rs * t)^2]. *)
Lemma positive_root rs t B u :
  0 < rs -> 0 < t -> 0 < B ->
  u ^ 2 * (rs * t + B) = (rs * t) ^ 2 ->
  (- quad_b u t + sqrt (discriminant (quad_a t) (quad_b u t) (- u ^ 2 * B)))
  / (2 * quad_a t) = rs.
Proof.
  intros Hrs Ht HB Hu.
  rewrite discriminant_expand. unfold quad_a, quad_b.
  set (U := u ^ 2) in *.
  assert (HU0 : 0 <= U) by (unfold U; apply pow2_ge_0).
  assert (Hrt : 0 < rs * t) by (apply Rmult_lt_0_compat; assumption).
  assert (HUle : U <= rs * t).
  { apply Rmult_le_reg_r with (rs * t + B); [lra |].
    rewrite Hu. replace ((rs * t) ^ 2) with (rs * t * (rs * t)) by ring.
    apply Rmult_le_compat_l; lra. }
  assert (Hd : (U * t) ^ 2 + 4 * (t ^ 2 * (U * B)) = (2 * t ^ 2 * rs - U * t) ^ 2).
  { replace ((U * t) ^ 2 + 4 * (t ^ 2 * (U * B)))
      with ((2 * t ^ 2 * rs - U * t) ^ 2
            + 4 * t ^ 2 * (U * (rs * t + B) - (rs * t) ^ 2)) by ring.
    rewrite Hu. ring. }
  rewrite Hd. rewrite sqrt_pow2.
  - field. lra.
  - assert (0 <= t * (2 * (rs * t) - U)) by (apply Rmult_le_pos; lra).
    replace (2 * t ^ 2 * rs - U * t) with (t * (2 * (rs * t) - U)) by ring.
    assumption.
Qed.

Lemma limit_rate_sci_inverts rs rk sub (k : Z) ru :
  0 < rs -> 0 <= rk -> 0 < sub -> (1 <= k)%Z ->
  limit_rate_sci rk
    (rs * (IZR k * sub) / sqrt (noise2 rs rk (IZR k * sub) k))
    (IZR k * sub) sub ru
  = rs.
Proof.
  intros Hrs Hrk Hs Hk.
  assert (Hk' : 1 <= IZR k) by (apply IZR_le in Hk; assumption).
  assert (Ht : 0 < IZR k * sub) by (apply Rmult_lt_0_compat; lra).
  unfold limit_rate_sci, limit_discriminant. cbv zeta.
  rewrite ceil_multiple by lra. rewrite rounded_time_multiple.
  unfold quad_c. rewrite read_noise_total_sq by lia.
  set (t := IZR k * sub) in *.
  set (B := rk * t + dark_current * t + IZR k * read_noise ^ 2).
  assert (HB : 0 < B).
  { unfold B, dark_current, read_noise.
    assert (0 <= rk * t) by (apply Rmult_le_pos; lra). lra. }
  assert (HY : noise2 rs rk t k = rs * t + B) by (unfold noise2, B; ring).
  apply positive_root; try assumption.
  rewrite HY. apply quotient_sq.
  assert (0 < rs * t) by (apply Rmult_lt_0_compat; assumption). lra.
Qed.

(** C4.  Over a whole number [k >= 1] of sub-exposures, [limit] applied to
    the SNR that [snr] returns for [mu] gives [mu] back, in exact
    arithmetic; the defaults [binning = 1], [N = 1] are an instance, and
    [round_up] plays no part on an exact multiple. *)
Theorem limit_inverts_snr band g e m sci_mu sub binning N (k : Z) ru ru' :
  band_entry band g e m ->
  0 < sub -> (1 <= k)%Z -> 0 < binning -> 0 < N ->
  exists v,
    snr sci_mu band (IZR k * sub) sub binning N ru = Ok v
    /\ limit band (IZR k * sub) v sub binning N ru' = Ok sci_mu.
Proof.
  intros Hb Hs Hk Hbin HN.
  destruct (band_entry_pos _ _ _ _ Hb) as [Hg He].
  assert (Hk' : 1 <= IZR k) by (apply IZR_le in Hk; assumption).
  assert (Ht : 0 < IZR k * sub) by (apply Rmult_lt_0_compat; lra).
  pose proof (rate_pos g N e sci_mu Hg He HN) as Hrs.
  pose proof (rate_pos g N e m Hg He HN) as Hrk.
  set (u := rate g N e sci_mu * (IZR k * sub)
            / sqrt (noise2 (rate g N e sci_mu) (rate g N e m) (IZR k * sub) k)).
  assert (Hu : 0 < u).
  { unfold u. apply Rdiv_lt_0_compat; [apply Rmult_lt_0_compat; assumption |].
    apply sqrt_lt_R0, noise2_pos; lra || lia. }
  exists (binning * u). split.
  - unfold u. rewrite <- binned_quotient.
    apply snr_at_count with (1 := Hb); [assumption | lra | assumption].
  - rewrite (limit_valid _ _ _ _ _ _ _ _ _ _ Hb) by (try assumption; try lra; nra).
    replace (binning * u / binning) with u by (field; lra).
    unfold u. rewrite limit_rate_sci_inverts by (assumption || lra).
    replace (rate g N e sci_mu / (g * N * e)) with (pow10 (-0.4 * sci_mu))
      by (unfold rate; field; repeat split; lra).
    rewrite log10_pow10. f_equal. lra.
Qed.

Lemma limit_inverts_snr_witness :
  exists v,
    snr 25 "g" (IZR 250 * 600) 600 1 1 false = Ok v
    /\ limit "g" (IZR 250 * 600) v 600 1 1 false = Ok 25.
Proof.
  apply (limit_inverts_snr "g" 1.79e9 0.34 22.0 25 600 1 1 250 false false).
  - repeat split.
  - lra.
  - lia.
  - lra.
  - lra.
Defined.

(** ** Monotonicity of [snr] *)

Section Monotone.

Variables (band : string) (g e m sub N : R).
Hypothesis entry : band_entry band g e m.
Hypothesis sub_pos : 0 < sub.
Hypothesis N_pos : 0 < N.

Let rk := rate g N e m.

Lemma sky_rate_pos : 0 < rk.
Proof. destruct (band_entry_pos _ _ _ _ entry). now apply rate_pos. Qed.

Lemma sci_rate_pos mu : 0 < rate g N e mu.
Proof. destruct (band_entry_pos _ _ _ _ entry). now apply rate_pos. Qed.

(** A brighter source has the larger rate. *)
Lemma rate_decreases mu1 mu2 : mu1 < mu2 -> rate g N e mu2 < rate g N e mu1.
Proof.
  intros Hmu. destruct (band_entry_pos _ _ _ _ entry) as [Hg He]. unfold rate.
  apply Rmult_lt_compat_l; [repeat apply Rmult_lt_0_compat; assumption |].
  apply pow10_lt. lra.
Qed.

(** With [round_up] on: more time never lowers the SNR. *)
Lemma snr_round_up_monotone mu binning t1 t2 :
  0 <= binning -> 0 < t1 -> t1 <= t2 ->
  exists v1 v2,
    snr mu band t1 sub binning N true = Ok v1
    /\ snr mu band t2 sub binning N true = Ok v2
    /\ v1 <= v2.
Proof.
  intros Hbin Ht1 Ht12.
  pose proof (sci_rate_pos mu) as Hrs. pose proof sky_rate_pos as Hrk.
  assert (Hq : t1 / sub <= t2 / sub).
  { apply Rmult_le_compat_r; [apply Rlt_le, Rinv_0_lt_compat; assumption | assumption]. }
  pose proof (Zceil_le _ _ Hq) as Hn. fold (math_ceil (t1 / sub)) in Hn.
  fold (math_ceil (t2 / sub)) in Hn.
  assert (Hn1 : (1 <= math_ceil (t1 / sub))%Z)
    by (apply ceil_pos, Rdiv_lt_0_compat; assumption).
  set (n1 := math_ceil (t1 / sub)) in *. set (n2 := math_ceil (t2 / sub)) in *.
  do 2 eexists. split; [| split].
  - rewrite (snr_entry_ok _ _ _ _ mu t1 sub binning N true entry) by lra.
    rewrite rounded_time_true. fold n1. reflexivity.
  - rewrite (snr_entry_ok _ _ _ _ mu t2 sub binning N true entry) by lra.
    rewrite rounded_time_true. fold n2. reflexivity.
  - rewrite !(binned_quotient binning). apply Rmult_le_compat_l; [assumption |].
    fold rk. set (rs := rate g N e mu) in *.
    assert (H1 : 1 <= IZR n1) by (apply IZR_le; assumption).
    assert (H12 : IZR n1 <= IZR n2) by (apply IZR_le; assumption).
    pose proof (K_pos rs rk sub Hrs (Rlt_le _ _ Hrk) sub_pos) as HK.
    rewrite !noise2_multiple by lra.
    set (K := rs + rk + dark_current + read_noise ^ 2 / sub) in *.
    set (x := IZR n1 * sub). set (y := IZR n2 * sub).
    assert (Hx : 0 < x) by (apply Rmult_lt_0_compat; lra).
    assert (Hxy : x <= y) by (apply Rmult_le_compat_r; lra).
    clearbody x y K rs.
    apply div_sqrt_le.
    + apply Rmult_le_pos; lra.
    + apply Rmult_le_pos; lra.
    + apply Rmult_lt_0_compat; lra.
    + apply Rmult_lt_0_compat; lra.
    + replace (rs * x * (rs * x) * (y * K)) with (rs * rs * K * (x * y) * x) by ring.
      replace (rs * y * (rs * y) * (x * K)) with (rs * rs * K * (x * y) * y) by ring.
      apply Rmult_le_compat_l; [| assumption].
      repeat apply Rmult_le_pos; lra.
Qed.

(** With [round_up] off: more time within the same number of
    sub-exposures raises the SNR. *)
Lemma snr_same_count_increases mu binning t1 t2 :
  0 < binning -> 0 < t1 -> t1 < t2 ->
  math_ceil (t1 / sub) = math_ceil (t2 / sub) ->
  exists v1 v2,
    snr mu band t1 sub binning N false = Ok v1
    /\ snr mu band t2 sub binning N false = Ok v2
    /\ v1 < v2.
Proof.
  intros Hbin Ht1 Ht12 Hc.
  pose proof (sci_rate_pos mu) as Hrs. pose proof sky_rate_pos as Hrk.
  assert (Hn1 : (1 <= math_ceil (t1 / sub))%Z)
    by (apply ceil_pos, Rdiv_lt_0_compat; assumption).
  do 2 eexists. split; [| split].
  - rewrite (snr_entry_ok _ _ _ _ mu t1 sub binning N false entry) by lra.
    rewrite rounded_time_false. reflexivity.
  - rewrite (snr_entry_ok _ _ _ _ mu t2 sub binning N false entry) by lra.
    rewrite rounded_time_false, <- Hc. reflexivity.
  - rewrite !(binned_quotient binning). apply Rmult_lt_compat_l; [assumption |].
    fold rk. set (rs := rate g N e mu) in *.
    set (n := math_ceil (t1 / sub)) in *.
    assert (H1 : 1 <= IZR n) by (apply IZR_le; assumption).
    unfold noise2, dark_current, read_noise.
    set (A := rs + rk + 0.04). set (c := IZR n * 10.0 ^ 2).
    assert (HA : 0 < A) by (unfold A; lra).
    assert (Hc0 : 0 < c) by (unfold c; lra).
    replace (rs * t1 + rk * t1 + 0.04 * t1 + c) with (A * t1 + c) by (unfold A; ring).
    replace (rs * t2 + rk * t2 + 0.04 * t2 + c) with (A * t2 + c) by (unfold A; ring).
    clearbody A c rs.
    assert (0 < A * t1) by (apply Rmult_lt_0_compat; lra).
    assert (0 < A * t2) by (apply Rmult_lt_0_compat; lra).
    apply div_sqrt_lt.
    + apply Rmult_le_pos; lra.
    + apply Rmult_le_pos; lra.
    + lra.
    + lra.
    + replace (rs * t1 * (rs * t1) * (A * t2 + c))
        with (rs * rs * (A * (t1 * t2) * t1 + c * (t1 * t1))) by ring.
      replace (rs * t2 * (rs * t2) * (A * t1 + c))
        with (rs * rs * (A * (t1 * t2) * t2 + c * (t2 * t2))) by ring.
      apply Rmult_lt_compat_l; [apply Rmult_lt_0_compat; assumption |].
      assert (0 < A * (t1 * t2))
        by (repeat apply Rmult_lt_0_compat; lra).
      assert (A * (t1 * t2) * t1 < A * (t1 * t2) * t2)
        by (apply Rmult_lt_compat_l; assumption).
      assert (t1 * t1 < t2 * t2) by (apply Rmult_le_0_lt_compat; lra).
      assert (c * (t1 * t1) < c * (t2 * t2))
        by (apply Rmult_lt_compat_l; assumption).
      lra.
Qed.

(** A larger binning factor raises the SNR. *)
Lemma snr_binning_increases mu t ru b1 b2 :
  0 < t -> b1 < b2 ->
  exists v1 v2,
    snr mu band t sub b1 N ru = Ok v1
    /\ snr mu band t sub b2 N ru = Ok v2
    /\ v1 < v2.
Proof.
  intros Ht Hb.
  pose proof (sci_rate_pos mu) as Hrs. pose proof sky_rate_pos as Hrk. unfold rk in Hrk.
  pose proof (rounded_time_pos ru t sub Ht sub_pos) as Ht'.
  assert (Hn : (1 <= math_ceil (t / sub))%Z)
    by (apply ceil_pos, Rdiv_lt_0_compat; assumption).
  do 2 eexists. split; [| split].
  - apply (snr_entry_ok _ _ _ _ mu t sub b1 N ru entry); lra.
  - apply (snr_entry_ok _ _ _ _ mu t sub b2 N ru entry); lra.
  - rewrite (binned_quotient b1), (binned_quotient b2).
    apply Rmult_lt_compat_r; [| assumption].
    apply Rdiv_lt_0_compat; [apply Rmult_lt_0_compat; assumption |].
    apply sqrt_lt_R0, noise2_pos; lra || lia.
Qed.

(** A fainter source (larger [mu]) has the lower SNR. *)
Lemma snr_mu_decreases t ru binning mu1 mu2 :
  0 < t -> 0 < binning -> mu1 < mu2 ->
  exists v1 v2,
    snr mu1 band t sub binning N ru = Ok v1
    /\ snr mu2 band t sub binning N ru = Ok v2
    /\ v2 < v1.
Proof.
  intros Ht Hbin Hmu.
  pose proof (sci_rate_pos mu1) as Hr1. pose proof (sci_rate_pos mu2) as Hr2.
  pose proof (rate_decreases _ _ Hmu) as Hr. pose proof sky_rate_pos as Hrk.
  pose proof (rounded_time_pos ru t sub Ht sub_pos) as Ht'.
  assert (Hn : (1 <= math_ceil (t / sub))%Z)
    by (apply ceil_pos, Rdiv_lt_0_compat; assumption).
  do 2 eexists. split; [| split].
  - apply (snr_entry_ok _ _ _ _ mu1 t sub binning N ru entry); lra.
  - apply (snr_entry_ok _ _ _ _ mu2 t sub binning N ru entry); lra.
  - rewrite !(binned_quotient binning). apply Rmult_lt_compat_l; [assumption |].
    fold rk. set (r1 := rate g N e mu1) in *. set (r2 := rate g N e mu2) in *.
    set (t' := rounded_time ru t (math_ceil (t / sub)) sub) in *.
    set (n := math_ceil (t / sub)) in *.
    assert (H1 : 1 <= IZR n) by (apply IZR_le; assumption).
    unfold noise2, dark_current, read_noise.
    set (B := rk * t' + 0.04 * t' + IZR n * 10.0 ^ 2).
    assert (HB : 0 < B).
    { unfold B. assert (0 < rk * t') by (apply Rmult_lt_0_compat; assumption). lra. }
    replace (r1 * t' + rk * t' + 0.04 * t' + IZR n * 10.0 ^ 2) with (r1 * t' + B)
      by (unfold B; ring).
    replace (r2 * t' + rk * t' + 0.04 * t' + IZR n * 10.0 ^ 2) with (r2 * t' + B)
      by (unfold B; ring).
    clearbody B r1 r2 t'.
    assert (0 < r1 * t') by (apply Rmult_lt_0_compat; assumption).
    assert (0 < r2 * t') by (apply Rmult_lt_0_compat; assumption).
    apply div_sqrt_lt; try lra.
    replace (r2 * t' * (r2 * t') * (r1 * t' + B))
      with (t' * t' * (r1 * r2 * t' * r2 + B * (r2 * r2))) by ring.
    replace (r1 * t' * (r1 * t') * (r2 * t' + B))
      with (t' * t' * (r1 * r2 * t' * r1 + B * (r1 * r1))) by ring.
    apply Rmult_lt_compat_l; [apply Rmult_lt_0_compat; assumption |].
    assert (0 < r1 * r2 * t') by (repeat apply Rmult_lt_0_compat; assumption).
    assert (r1 * r2 * t' * r2 < r1 * r2 * t' * r1)
      by (apply Rmult_lt_compat_l; assumption).
    assert (r2 * r2 < r1 * r1) by (apply Rmult_le_0_lt_compat; lra).
    assert (B * (r2 * r2) < B * (r1 * r1))
      by (apply Rmult_lt_compat_l; assumption).
    lra.
Qed.

End Monotone.

(** C5 (amended).  On a known band with [N >= 1] and a positive
    sub-exposure time: with [round_up] on, [snr] never decreases when the
    total exposure time grows; with [round_up] off it strictly increases
    with the total time as long as the number of sub-exposures is the same;
    it strictly increases with [binning]; and, for a positive [binning], it
    strictly decreases when [mu] grows. *)
Theorem snr_monotonicity band g e m sub N :
  band_entry band g e m -> 0 < sub -> 1 <= N ->
  (forall mu binning t1 t2,
      0 <= binning -> 0 < t1 -> t1 <= t2 ->
      exists v1 v2,
        snr mu band t1 sub binning N true = Ok v1
        /\ snr mu band t2 sub binning N true = Ok v2
        /\ v1 <= v2)
  /\ (forall mu binning t1 t2,
         0 < binning -> 0 < t1 -> t1 < t2 ->
         math_ceil (t1 / sub) = math_ceil (t2 / sub) ->
         exists v1 v2,
           snr mu band t1 sub binning N false = Ok v1
           /\ snr mu band t2 sub binning N false = Ok v2
           /\ v1 < v2)
  /\ (forall mu t ru b1 b2,
         0 < t -> b1 < b2 ->
         exists v1 v2,
           snr mu band t sub b1 N ru = Ok v1
           /\ snr mu band t sub b2 N ru = Ok v2
           /\ v1 < v2)
  /\ (forall t ru binning mu1 mu2,
         0 < t -> 0 < binning -> mu1 < mu2 ->
         exists v1 v2,
           snr mu1 band t sub binning N ru = Ok v1
           /\ snr mu2 band t sub binning N ru = Ok v2
           /\ v2 < v1).
Proof.
  intros Hb Hs HN. assert (HN' : 0 < N) by lra.
  split; [| split; [| split]].
  - intros. eapply snr_round_up_monotone; eassumption.
  - intros. eapply snr_same_count_increases; eassumption.
  - intros. eapply snr_binning_increases; eassumption.
  - intros. eapply snr_mu_decreases; eassumption.
Qed.

Lemma snr_monotonicity_witness :
  (forall mu binning t1 t2,
      0 <= binning -> 0 < t1 -> t1 <= t2 ->
      exists v1 v2,
        snr mu "r" t1 600 binning 1 true = Ok v1
        /\ snr mu "r" t2 600 binning 1 true = Ok v2
        /\ v1 <= v2)
  /\ (forall mu binning t1 t2,
         0 < binning -> 0 < t1 -> t1 < t2 ->
         math_ceil (t1 / 600) = math_ceil (t2 / 600) ->
         exists v1 v2,
           snr mu "r" t1 600 binning 1 false = Ok v1
           /\ snr mu "r" t2 600 binning 1 false = Ok v2
           /\ v1 < v2)
  /\ (forall mu t ru b1 b2,
         0 < t -> b1 < b2 ->
         exists v1 v2,
           snr mu "r" t 600 b1 1 ru = Ok v1
           /\ snr mu "r" t 600 b2 1 ru = Ok v2
           /\ v1 < v2)
  /\ (forall t ru binning mu1 mu2,
         0 < t -> 0 < binning -> mu1 < mu2 ->
         exists v1 v2,
           snr mu1 "r" t 600 binning 1 ru = Ok v1
           /\ snr mu2 "r" t 600 binning 1 ru = Ok v2
           /\ v2 < v1).
Proof.
  apply (snr_monotonicity "r" 1.16e9 0.35 21.0 600 1).
  - repeat split.
  - lra.
  - lra.
Defined.

Lemma pow10_m8 : pow10 (-8) = / 10 ^ 8.
Proof.
  unfold pow10. replace (-8) with (- INR 8) by (simpl; lra).
  rewrite Rpower_Ropp, Rpower_pow by lra. reflexivity.
Qed.

(** Fainter than 20 mag/arcsec^2 the rate is under [g * N * e / 10^8]. *)
Lemma rate_faint g N e mu :
  0 < g -> 0 < e -> 0 < N -> 20 < mu -> rate g N e mu < g * N * e * / 10 ^ 8.
Proof.
  intros Hg He HN Hmu. unfold rate. rewrite <- pow10_m8.
  apply Rmult_lt_compat_l; [repeat apply Rmult_lt_0_compat; assumption |].
  apply pow10_lt. lra.
Qed.

Lemma ceil_600_600 : math_ceil (600 / 600) = 1%Z.
Proof. unfold math_ceil. apply Zceil_eq. lra. Qed.

Lemma ceil_601_600 : math_ceil (601 / 600) = 2%Z.
Proof. unfold math_ceil. apply Zceil_eq. lra. Qed.

(** C5, as stated, fails for the total exposure time when [round_up] is
    off: 601 s need a second sub-exposure of 600 s, whose read noise
    outweighs the extra second on a faint source. *)
Lemma snr_drops_with_one_more_second :
  exists v1 v2,
    snr 25 "g" 600 600 1 1 false = Ok v1
    /\ snr 25 "g" 601 600 1 1 false = Ok v2
    /\ 600 < 601 /\ v2 < v1.
Proof.
  pose proof (rate_faint 1.79e9 1 0.34 25) as Hrs.
  pose proof (rate_faint 1.79e9 1 0.34 22.0) as Hrk.
  pose proof (rate_pos 1.79e9 1 0.34 25) as Hrs0.
  pose proof (rate_pos 1.79e9 1 0.34 22.0) as Hrk0.
  do 2 eexists. split; [| split; [| split]].
  - rewrite (snr_entry_ok _ _ _ _ 25 600 600 1 1 false band_entry_g) by lra.
    rewrite rounded_time_false, ceil_600_600. reflexivity.
  - rewrite (snr_entry_ok _ _ _ _ 25 601 600 1 1 false band_entry_g) by lra.
    rewrite rounded_time_false, ceil_601_600. reflexivity.
  - lra.
  - set (rs := rate 1.79e9 1 0.34 25) in *.
    set (rk := rate 1.79e9 1 0.34 22.0) in *.
    assert (Hrs' : 0 < rs < 7) by lra. assert (Hrk' : 0 < rk < 7) by lra.
    clearbody rs rk. clear Hrs Hrk Hrs0 Hrk0.
    rewrite !(binned_quotient 1). apply Rmult_lt_compat_l; [lra |].
    unfold noise2, dark_current, read_noise.
    apply div_sqrt_lt; try lra.
    replace (rs * 601 * (rs * 601) * (rs * 600 + rk * 600 + 0.04 * 600 + 1 * 10.0 ^ 2))
      with (rs * rs * (601 * 601 * (rs * 600 + rk * 600 + 0.04 * 600 + 1 * 10.0 ^ 2)))
      by ring.
    replace (rs * 600 * (rs * 600) * (rs * 601 + rk * 601 + 0.04 * 601 + 2 * 10.0 ^ 2))
      with (rs * rs * (600 * 600 * (rs * 601 + rk * 601 + 0.04 * 601 + 2 * 10.0 ^ 2)))
      by ring.
    apply Rmult_lt_compat_l; [apply Rmult_lt_0_compat; lra | lra].
Qed.

(** ** [snr] on arguments that are not positive

    [snr] checks none of its arguments; what happens is what the
    arithmetic does. *)

Lemma snr_rates_negative_count rs rk t sub binning ru :
  sub <> 0 -> (math_ceil (t / sub) < 0)%Z ->
  snr_rates rs rk t sub binning ru = Raise ValueError.
Proof.
  intros Hs Hn. unfold snr_rates. rewrite truediv_ok by assumption. cbn [bind].
  rewrite math_sqrt_neg by (apply IZR_lt in Hn; assumption). reflexivity.
Qed.

Lemma snr_rates_zero_count rs rk t sub binning ru :
  sub <> 0 -> math_ceil (t / sub) = 0%Z ->
  snr_rates rs rk t sub binning ru
  = (noise <- math_sqrt ((rs + rk + dark_current) * rounded_time ru t 0 sub) ;;
     truediv (binning * (rs * rounded_time ru t 0 sub)) noise).
Proof.
  intros Hs Hn. unfold snr_rates. rewrite truediv_ok by assumption. cbn [bind].
  rewrite Hn. rewrite math_sqrt_ok by lra. cbn [bind].
  rewrite sqrt_0. f_equal. f_equal. ring.
Qed.

Lemma snr_rates_no_time rs rk t sub binning ru :
  sub <> 0 -> math_ceil (t / sub) = 0%Z -> rounded_time ru t 0 sub = 0 ->
  snr_rates rs rk t sub binning ru = Raise ZeroDivisionError.
Proof.
  intros Hs Hn Ht. rewrite snr_rates_zero_count by assumption. rewrite Ht.
  rewrite Rmult_0_r. rewrite math_sqrt_ok by lra. cbn [bind].
  rewrite sqrt_0. apply truediv_zero.
Qed.

Lemma snr_rates_negative_time rs rk t sub binning ru :
  sub <> 0 -> math_ceil (t / sub) = 0%Z -> rounded_time ru t 0 sub < 0 ->
  0 < rs + rk + dark_current ->
  snr_rates rs rk t sub binning ru = Raise ValueError.
Proof.
  intros Hs Hn Ht HA. rewrite snr_rates_zero_count by assumption.
  rewrite math_sqrt_neg; [reflexivity |].
  replace 0 with ((rs + rk + dark_current) * 0) by ring.
  apply Rmult_lt_compat_l; assumption.
Qed.

Section NotPositive.

Variables (band : string) (g e m sci_mu : R).
Hypothesis entry : band_entry band g e m.

(** [sub_exp_time = 0]: the division raises. *)
Lemma snr_sub_zero t binning N ru :
  snr sci_mu band t 0 binning N ru = Raise ZeroDivisionError.
Proof.
  rewrite (snr_entry _ _ _ _ _ _ _ _ _ _ entry). unfold snr_rates.
  rewrite truediv_zero. reflexivity.
Qed.

(** [total_exp_time <= 0] with a positive sub-exposure time. *)
Lemma snr_total_nonpositive t sub binning N ru :
  t <= 0 -> 0 < sub -> 0 <= N ->
  snr sci_mu band t sub binning N ru = Raise ZeroDivisionError
  \/ snr sci_mu band t sub binning N ru = Raise ValueError.
Proof.
  intros Ht Hs HN. rewrite (snr_entry _ _ _ _ _ _ _ _ _ _ entry).
  destruct (band_entry_pos _ _ _ _ entry) as [Hg He].
  pose proof (rate_nonneg g N e sci_mu Hg He HN) as Hrs.
  pose proof (rate_nonneg g N e m Hg He HN) as Hrk.
  assert (Hq : t / sub <= 0).
  { apply Rmult_le_reg_r with sub; [assumption |].
    replace (t / sub * sub) with t by (field; lra). lra. }
  pose proof (ceil_nonpos _ Hq) as Hn.
  destruct (Z.eq_dec (math_ceil (t / sub)) 0) as [Hn0 | Hn0].
  - destruct ru.
    + left. apply snr_rates_no_time; [lra | assumption |].
      rewrite rounded_time_true. ring.
    + destruct (Req_dec_T t 0) as [-> | Ht0].
      * left. apply snr_rates_no_time; [lra | assumption | reflexivity].
      * right. apply snr_rates_negative_time; [lra | assumption | |].
        -- rewrite rounded_time_false. lra.
        -- unfold dark_current. lra.
  - right. apply snr_rates_negative_count; [lra | lia].
Qed.

(** [sub_exp_time < 0] with a positive total time, [round_up] on. *)
Lemma snr_sub_negative t sub binning N :
  0 < t -> sub < 0 ->
  snr sci_mu band t sub binning N true = Raise ZeroDivisionError
  \/ snr sci_mu band t sub binning N true = Raise ValueError.
Proof.
  intros Ht Hs. rewrite (snr_entry _ _ _ _ _ _ _ _ _ _ entry).
  assert (Hq : t / sub <= 0).
  { apply Rmult_le_reg_r with (- sub); [lra |].
    replace (t / sub * - sub) with (- t) by (field; lra). lra. }
  pose proof (ceil_nonpos _ Hq) as Hn.
  destruct (Z.eq_dec (math_ceil (t / sub)) 0) as [Hn0 | Hn0].
  - left. apply snr_rates_no_time; [lra | assumption |].
    rewrite rounded_time_true. ring.
  - right. apply snr_rates_negative_count; [lra | lia].
Qed.

(** [binning] only scales the result, whatever its sign. *)
Lemma snr_any_binning t sub N ru :
  0 < t -> 0 < sub -> 0 <= N ->
  exists q, 0 <= q
    /\ forall binning, snr sci_mu band t sub binning N ru = Ok (binning * q).
Proof.
  intros Ht Hs HN.
  destruct (band_entry_pos _ _ _ _ entry) as [Hg He].
  pose proof (rate_nonneg g N e sci_mu Hg He HN) as Hrs.
  pose proof (rate_nonneg g N e m Hg He HN) as Hrk.
  pose proof (rounded_time_pos ru t sub Ht Hs) as Ht'.
  assert (Hn : (1 <= math_ceil (t / sub))%Z)
    by (apply ceil_pos, Rdiv_lt_0_compat; assumption).
  eexists. split.
  2: { intros binning.
       rewrite (snr_entry_ok _ _ _ _ sci_mu t sub binning N ru entry) by lra.
       rewrite (binned_quotient binning). reflexivity. }
  apply Rmult_le_pos; [apply Rmult_le_pos; lra |].
  apply Rlt_le, Rinv_0_lt_compat, sqrt_lt_R0, noise2_pos; lra || lia.
Qed.

(** [N = 0]: no signal, and the SNR is 0. *)
Lemma snr_N_zero t sub binning ru :
  0 < t -> 0 < sub -> snr sci_mu band t sub binning 0 ru = Ok 0.
Proof.
  intros Ht Hs.
  rewrite (snr_entry_ok _ _ _ _ sci_mu t sub binning 0 ru entry) by lra.
  f_equal. unfold rate, Rdiv. ring.
Qed.

End NotPositive.

(** C7 (amended).  [snr] validates nothing.  On a known band it raises
    [ZeroDivisionError] when [sub_exp_time] is 0; it raises
    [ZeroDivisionError] or [ValueError] when [total_exp_time <= 0] (positive
    sub-exposure time, [N >= 0]) and, with [round_up] on, when
    [sub_exp_time < 0] (positive total time).  It returns a number for every
    [binning], also zero or negative, namely [binning] times a value that
    does not depend on it, and it returns 0 when [N = 0]. *)
Theorem snr_on_nonpositive_arguments band g e m sci_mu :
  band_entry band g e m ->
  (forall t binning N ru,
      snr sci_mu band t 0 binning N ru = Raise ZeroDivisionError)
  /\ (forall t sub binning N ru,
         t <= 0 -> 0 < sub -> 0 <= N ->
         snr sci_mu band t sub binning N ru = Raise ZeroDivisionError
         \/ snr sci_mu band t sub binning N ru = Raise ValueError)
  /\ (forall t sub binning N,
         0 < t -> sub < 0 ->
         snr sci_mu band t sub binning N true = Raise ZeroDivisionError
         \/ snr sci_mu band t sub binning N true = Raise ValueError)
  /\ (forall t sub N ru,
         0 < t -> 0 < sub -> 0 <= N ->
         exists q, 0 <= q
           /\ forall binning, snr sci_mu band t sub binning N ru = Ok (binning * q))
  /\ (forall t sub binning ru,
         0 < t -> 0 < sub -> snr sci_mu band t sub binning 0 ru = Ok 0).
Proof.
  intros Hb. split; [| split; [| split; [| split]]].
  - intros. eapply snr_sub_zero; eassumption.
  - intros. eapply snr_total_nonpositive; eassumption.
  - intros. eapply snr_sub_negative; eassumption.
  - intros. eapply snr_any_binning; eassumption.
  - intros. eapply snr_N_zero; eassumption.
Qed.

Lemma snr_on_nonpositive_arguments_witness :
  (forall t binning N ru, snr 25 "g" t 0 binning N ru = Raise ZeroDivisionError)
  /\ (forall t sub binning N ru,
         t <= 0 -> 0 < sub -> 0 <= N ->
         snr 25 "g" t sub binning N ru = Raise ZeroDivisionError
         \/ snr 25 "g" t sub binning N ru = Raise ValueError)
  /\ (forall t sub binning N,
         0 < t -> sub < 0 ->
         snr 25 "g" t sub binning N true = Raise ZeroDivisionError
         \/ snr 25 "g" t sub binning N true = Raise ValueError)
  /\ (forall t sub N ru,
         0 < t -> 0 < sub -> 0 <= N ->
         exists q, 0 <= q
           /\ forall binning, snr 25 "g" t sub binning N ru = Ok (binning * q))
  /\ (forall t sub binning ru,
         0 < t -> 0 < sub -> snr 25 "g" t sub binning 0 ru = Ok 0).
Proof.
  apply (snr_on_nonpositive_arguments "g" 1.79e9 0.34 22.0 25).
  repeat split.
Defined.

(** C7, as stated, fails: with [binning = 0], with [binning = -1] and with
    [N = 0], [snr] returns a number. *)
Lemma snr_accepts_nonpositive_binning_and_N :
  snr 25 "g" 600 600 0 1 true = Ok 0
  /\ (exists v, snr 25 "g" 600 600 (-1) 1 true = Ok v /\ v < 0)
  /\ snr 25 "g" 600 600 1 0 true = Ok 0.
Proof.
  pose proof (rate_pos 1.79e9 1 0.34 25) as Hrs.
  pose proof (rate_pos 1.79e9 1 0.34 22.0) as Hrk.
  pose proof (rounded_time_pos true 600 600) as Ht.
  split; [| split].
  - rewrite (snr_entry_ok _ _ _ _ 25 600 600 0 1 true band_entry_g) by lra.
    f_equal. unfold Rdiv. ring.
  - eexists. split.
    + apply (snr_entry_ok _ _ _ _ 25 600 600 (-1) 1 true band_entry_g); lra.
    + rewrite (binned_quotient (-1)).
      assert (0 < rate 1.79e9 1 0.34 25
                  * rounded_time true 600 (math_ceil (600 / 600)) 600
                  / sqrt (noise2 (rate 1.79e9 1 0.34 25) (rate 1.79e9 1 0.34 22.0)
                            (rounded_time true 600 (math_ceil (600 / 600)) 600)
                            (math_ceil (600 / 600)))).
      { apply Rdiv_lt_0_compat; [apply Rmult_lt_0_compat; lra |].
        apply sqrt_lt_R0, noise2_pos; try lra. rewrite ceil_600_600. lia. }
      lra.
  - apply (snr_N_zero "g" 1.79e9 0.34 22.0 25 band_entry_g); lra.
Qed.

(** With [round_up] off a negative sub-exposure time can go unnoticed: the
    count of sub-exposures is 0 and the total time is kept. *)
Lemma snr_negative_sub_unnoticed : is_ok (snr 25 "g" 100 (-600) 1 1 false).
Proof.
  pose proof (rate_pos 1.79e9 1 0.34 25) as Hrs.
  pose proof (rate_pos 1.79e9 1 0.34 22.0) as Hrk.
  rewrite (snr_entry _ _ _ _ _ _ _ _ _ _ band_entry_g).
  rewrite snr_rates_zero_count;
    [| lra | unfold math_ceil; apply Zceil_eq; lra].
  rewrite rounded_time_false.
  rewrite math_sqrt_ok by (unfold dark_current; nra). cbn [bind].
  eexists. apply truediv_ok. apply Rgt_not_eq, sqrt_lt_R0.
  unfold dark_current. nra.
Qed.

(** ** A negative discriminant needs a negative [N] *)

Lemma pow10_m9 : pow10 (-9) = / 10 ^ 9.
Proof.
  unfold pow10. replace (-9) with (- INR 9) by (simpl; lra).
  rewrite Rpower_Ropp, Rpower_pow by lra. reflexivity.
Qed.

(** With a million apertures counted negatively the sky counts are
    negative, the discriminant is negative and [math.sqrt] raises. *)
Lemma limit_negative_N_raises :
  limit_discriminant (rate 1.79e9 (-1000000) 0.34 22.0) (1 / 1) 600 600 true < 0
  /\ limit "g" 600 1 600 1 (-1000000) true = Raise ValueError.
Proof.
  assert (Hd : limit_discriminant (rate 1.79e9 (-1000000) 0.34 22.0) (1 / 1) 600 600 true
               < 0).
  { unfold limit_discriminant. cbv zeta.
    rewrite ceil_600_600, rounded_time_true. unfold quad_c.
    rewrite discriminant_expand, sqrt_1.
    assert (Hp : pow10 (-9) < pow10 (-0.4 * 22.0)) by (apply pow10_lt; lra).
    rewrite pow10_m9 in Hp. unfold rate, dark_current, read_noise.
    set (p := pow10 (-0.4 * 22.0)) in *. clearbody p. lra. }
  split; [exact Hd |].
  apply (limit_negative_discriminant "g" 1.79e9 0.34 22.0 600 1 600 1 (-1000000) true
           band_entry_g); [lra | lra | rewrite ceil_600_600; lia | exact Hd].
Qed.

(** * Further properties of [snr], [etc] and [limit] *)

(** ** [snr] and [limit] are inverse to each other *)

(** The background of [limit] is the part of the noise of [snr] that does
    not come from the source. *)
Lemma noise2_split rs rk t (n : Z) :
  (0 <= n)%Z ->
  noise2 rs rk t n
  = rs * t + (rk * t + dark_current * t + (sqrt (IZR n) * read_noise) ^ 2).
Proof.
  intros Hn. rewrite read_noise_total_sq by assumption. unfold noise2. ring.
Qed.

Lemma background_pos rk t (n : Z) :
  0 <= rk -> 0 < t -> (0 <= n)%Z ->
  0 < rk * t + dark_current * t + (sqrt (IZR n) * read_noise) ^ 2.
Proof.
  intros Hrk Ht Hn.
  assert (0 <= rk * t) by (apply Rmult_le_pos; lra).
  assert (0 <= (sqrt (IZR n) * read_noise) ^ 2) by apply pow2_ge_0.
  unfold dark_current. lra.
Qed.

(** For any positive total time, the root taken by [limit] at the SNR of
    the rate [rs] is [rs]. *)
Lemma limit_rate_sci_of_snr rs rk t sub ru :
  0 < rs -> 0 <= rk -> 0 < t -> 0 < sub ->
  limit_rate_sci rk
    (rs * rounded_time ru t (math_ceil (t / sub)) sub
     / sqrt (noise2 rs rk (rounded_time ru t (math_ceil (t / sub)) sub)
               (math_ceil (t / sub))))
    t sub ru
  = rs.
Proof.
  intros Hrs Hrk Ht Hs.
  pose proof (rounded_time_pos ru t sub Ht Hs) as Ht'.
  assert (Hn : (1 <= math_ceil (t / sub))%Z)
    by (apply ceil_pos, Rdiv_lt_0_compat; assumption).
  unfold limit_rate_sci, limit_discriminant. cbv zeta. unfold quad_c.
  rewrite noise2_split by lia.
  set (t' := rounded_time ru t (math_ceil (t / sub)) sub) in *.
  pose proof (background_pos rk t' (math_ceil (t / sub)) Hrk Ht') as HB.
  set (B := rk * t' + dark_current * t'
            + (sqrt (IZR (math_ceil (t / sub))) * read_noise) ^ 2) in *.
  assert (HB' : 0 < B) by (apply HB; lia).
  apply positive_root; try assumption.
  apply quotient_sq.
  assert (0 < rs * t') by (apply Rmult_lt_0_compat; assumption). lra.
Qed.

(** The surface brightness of a rate: [rate] undoes
    [-2.5 * log10(r / (g * N * e))]. *)
Lemma rate_of_limit_mu g N e r :
  0 < g -> 0 < e -> 0 < N -> 0 < r ->
  rate g N e (-2.5 * (ln (r / (g * N * e)) / ln 10)) = r.
Proof.
  intros Hg He HN Hr. pose proof ln10_pos as Hl.
  assert (Hgne : 0 < g * N * e) by (repeat apply Rmult_lt_0_compat; assumption).
  assert (Hx : 0 < r / (g * N * e)) by (apply Rdiv_lt_0_compat; assumption).
  unfold rate, pow10, Rpower.
  assert (Hy : ln (r / (g * N * e)) / ln 10 * ln 10 = ln (r / (g * N * e)))
    by (field; lra).
  replace (-0.4 * (-2.5 * (ln (r / (g * N * e)) / ln 10)) * ln 10)
    with (ln (r / (g * N * e)))
    by (set (y := ln (r / (g * N * e)) / ln 10) in *; lra).
  rewrite exp_ln by assumption. field. lra.
Qed.

(** The root taken by [limit] solves [(r t)^2 = s^2 (r t + B)]. *)
Lemma root_equation s t B :
  0 < t -> 0 <= B ->
  let r := (- quad_b s t
            + sqrt (discriminant (quad_a t) (quad_b s t) (- s ^ 2 * B)))
           / (2 * quad_a t) in
  (r * t) ^ 2 = s ^ 2 * (r * t + B).
Proof.
  intros Ht HB r.
  pose proof (discriminant_nonneg s t B HB) as HD.
  pose proof (sqrt_sqrt _ HD) as Hq.
  set (q := sqrt (discriminant (quad_a t) (quad_b s t) (- s ^ 2 * B))) in *.
  rewrite discriminant_expand in Hq.
  assert (Hr : r * t = (s ^ 2 * t + q) / (2 * t)).
  { unfold r, quad_a, quad_b. fold q. field. lra. }
  rewrite Hr.
  apply Rmult_eq_reg_l with (4 * t ^ 2); [| simpl; nra].
  replace (4 * t ^ 2 * ((s ^ 2 * t + q) / (2 * t)) ^ 2)
    with ((s ^ 2 * t) ^ 2 + 2 * (s ^ 2 * t) * q + q * q) by (field; lra).
  replace (4 * t ^ 2 * (s ^ 2 * ((s ^ 2 * t + q) / (2 * t) + B)))
    with (2 * (s ^ 2 * t) * (s ^ 2 * t + q) + 4 * (t ^ 2 * (s ^ 2 * B)))
    by (field; lra).
  rewrite Hq. ring.
Qed.

(** A positive [s] with [a^2 = s^2 Y] is the quotient [a / sqrt Y]. *)
Lemma quotient_of_square s a Y :
  0 < s -> 0 < a -> 0 < Y -> a ^ 2 = s ^ 2 * Y -> a / sqrt Y = s.
Proof.
  intros Hs Ha HY H.
  assert (Hq : sqrt Y = a / s).
  { apply sqrt_lem_1; [lra | apply Rlt_le, Rdiv_lt_0_compat; assumption |].
    apply Rmult_eq_reg_l with (s ^ 2); [| simpl; nra].
    rewrite <- H. field. lra. }
  rewrite Hq. field. lra.
Qed.

(** The SNR per unbinned pixel at the root taken by [limit] is the target
    per unbinned pixel. *)
Lemma snr_at_limit_rate rk s t sub ru :
  0 <= rk -> 0 < s -> 0 < t -> 0 < sub ->
  limit_rate_sci rk s t sub ru * rounded_time ru t (math_ceil (t / sub)) sub
  / sqrt (noise2 (limit_rate_sci rk s t sub ru) rk
            (rounded_time ru t (math_ceil (t / sub)) sub)
            (math_ceil (t / sub)))
  = s.
Proof.
  intros Hrk Hs Ht Hsub.
  pose proof (rounded_time_pos ru t sub Ht Hsub) as Ht'.
  assert (Hn : (1 <= math_ceil (t / sub))%Z)
    by (apply ceil_pos, Rdiv_lt_0_compat; assumption).
  pose proof (limit_rate_sci_pos rk s t sub ru Ht Hsub (Rgt_not_eq _ _ Hs)) as Hr.
  rewrite noise2_split by lia.
  pose proof (background_pos rk (rounded_time ru t (math_ceil (t / sub)) sub)
                (math_ceil (t / sub)) Hrk Ht') as HB.
  assert (HB' : 0 < rk * rounded_time ru t (math_ceil (t / sub)) sub
                    + dark_current * rounded_time ru t (math_ceil (t / sub)) sub
                    + (sqrt (IZR (math_ceil (t / sub))) * read_noise) ^ 2)
    by (apply HB; lia).
  pose proof (root_equation s (rounded_time ru t (math_ceil (t / sub)) sub) _
                Ht' (Rlt_le _ _ HB')) as Heq.
  cbv zeta in Heq.
  unfold limit_rate_sci in *. cbv zeta in *.
  unfold limit_discriminant in *. cbv zeta in *. unfold quad_c in *.
  set (t' := rounded_time ru t (math_ceil (t / sub)) sub) in *.
  set (B := rk * t' + dark_current * t'
            + (sqrt (IZR (math_ceil (t / sub))) * read_noise) ^ 2) in *.
  set (r := (- quad_b s t' + sqrt (discriminant (quad_a t') (quad_b s t') (- s ^ 2 * B)))
            / (2 * quad_a t')) in *.
  assert (0 < r * t') by (apply Rmult_lt_0_compat; assumption).
  apply quotient_of_square; [assumption | assumption | lra | exact Heq].
Qed.

(** X1.  For every positive total exposure time, whole number of
    sub-exposures or not, [limit] called with the SNR that [snr] returns for
    [mu], and with the same arguments and [round_up] flag, returns [mu]. *)
Theorem limit_of_snr_any_time band g e m sci_mu t sub binning N ru :
  band_entry band g e m ->
  0 < t -> 0 < sub -> 0 < binning -> 0 < N ->
  exists v,
    snr sci_mu band t sub binning N ru = Ok v
    /\ limit band t v sub binning N ru = Ok sci_mu.
Proof.
  intros Hb Ht Hs Hbin HN.
  destruct (band_entry_pos _ _ _ _ Hb) as [Hg He].
  pose proof (rate_pos g N e sci_mu Hg He HN) as Hrs.
  pose proof (rate_pos g N e m Hg He HN) as Hrk.
  pose proof (rounded_time_pos ru t sub Ht Hs) as Ht'.
  assert (Hn : (1 <= math_ceil (t / sub))%Z)
    by (apply ceil_pos, Rdiv_lt_0_compat; assumption).
  set (u := rate g N e sci_mu * rounded_time ru t (math_ceil (t / sub)) sub
            / sqrt (noise2 (rate g N e sci_mu) (rate g N e m)
                      (rounded_time ru t (math_ceil (t / sub)) sub)
                      (math_ceil (t / sub)))).
  assert (Hu : 0 < u).
  { unfold u. apply Rdiv_lt_0_compat; [apply Rmult_lt_0_compat; assumption |].
    apply sqrt_lt_R0, noise2_pos; lra || lia. }
  exists (binning * u). split.
  - unfold u. rewrite <- binned_quotient. apply snr_entry_ok; assumption || lra.
  - rewrite (limit_valid _ _ _ _ _ _ _ _ _ _ Hb) by (try assumption; try lra; nra).
    replace (binning * u / binning) with u by (field; lra).
    unfold u. rewrite limit_rate_sci_of_snr by (assumption || lra).
    replace (rate g N e sci_mu / (g * N * e)) with (pow10 (-0.4 * sci_mu))
      by (unfold rate; field; repeat split; lra).
    rewrite log10_pow10. f_equal. lra.
Qed.

Lemma limit_of_snr_any_time_witness :
  exists v,
    snr 25 "r" 1000 600 2 3 false = Ok v
    /\ limit "r" 1000 v 600 2 3 false = Ok 25.
Proof.
  apply (limit_of_snr_any_time "r" 1.16e9 0.35 21.0 25 1000 600 2 3 false).
  - repeat split.
  - lra.
  - lra.
  - lra.
  - lra.
Defined.

(** X2.  [limit] returns a surface brightness at which [snr], called with
    the same arguments, gives the target back: on a known band, with
    positive times, target, [binning] and [N]. *)
Theorem snr_of_limit band g e m t target sub binning N ru :
  band_entry band g e m ->
  0 < t -> 0 < sub -> 0 < target -> 0 < binning -> 0 < N ->
  exists mu,
    limit band t target sub binning N ru = Ok mu
    /\ snr mu band t sub binning N ru = Ok target.
Proof.
  intros Hb Ht Hs Htg Hbin HN.
  destruct (band_entry_pos _ _ _ _ Hb) as [Hg He].
  pose proof (rate_pos g N e m Hg He HN) as Hrk.
  assert (Hs0 : 0 < target / binning) by (apply Rdiv_lt_0_compat; assumption).
  pose proof (limit_rate_sci_pos (rate g N e m) (target / binning) t sub ru Ht Hs
                (Rgt_not_eq _ _ Hs0)) as Hr.
  eexists. split.
  - apply limit_valid with (1 := Hb); assumption || lra.
  - rewrite (snr_entry_ok _ _ _ _ _ t sub binning N ru Hb) by lra.
    rewrite rate_of_limit_mu by assumption.
    rewrite (binned_quotient binning).
    rewrite snr_at_limit_rate by (assumption || lra).
    f_equal. field. lra.
Qed.

Lemma snr_of_limit_witness :
  exists mu,
    limit "g" 1000 5 600 2 3 true = Ok mu
    /\ snr mu "g" 1000 600 2 3 true = Ok 5.
Proof.
  apply (snr_of_limit "g" 1.79e9 0.34 22.0 1000 5 600 2 3 true).
  - repeat split.
  - lra.
  - lra.
  - lra.
  - lra.
  - lra.
Defined.

(** ** Rounding up to the next multiple *)

Lemma ceil_least x (k : Z) : x <= IZR k -> (math_ceil x <= k)%Z.
Proof.
  intros Hx. unfold math_ceil. destruct (Zceil_bound x) as [Hl _].
  assert (H : IZR (Zceil x) - 1 < IZR k) by lra.
  rewrite <- minus_IZR in H. apply lt_IZR in H. lia.
Qed.

Lemma ceil_below_next x sub : 0 < sub -> IZR (math_ceil (x / sub)) * sub < x + sub.
Proof.
  intros Hs. unfold math_ceil. set (q := x / sub).
  destruct (Zceil_bound q) as [Hl _].
  replace (x + sub) with ((q + 1) * sub) by (unfold q; field; lra).
  apply Rmult_lt_compat_r; lra.
Qed.

Lemma snr_round_up_at_multiple sci_mu band t sub binning N ru :
  sub <> 0 ->
  snr sci_mu band t sub binning N true
  = snr sci_mu band (IZR (math_ceil (t / sub)) * sub) sub binning N ru.
Proof.
  intros Hs. unfold snr.
  destruct (getitem gamma0 band) as [g |]; [| reflexivity].
  destruct (getitem efficiency band) as [e |]; [| reflexivity].
  destruct (getitem sky_mu band) as [m |]; [| reflexivity].
  cbn [bind]. rewrite !truediv_ok by assumption. cbn [bind].
  rewrite ceil_multiple by assumption.
  rewrite rounded_time_true, rounded_time_multiple. reflexivity.
Qed.

Lemma limit_round_up_at_multiple band t target sub binning N ru :
  sub <> 0 ->
  limit band t target sub binning N true
  = limit band (IZR (math_ceil (t / sub)) * sub) target sub binning N ru.
Proof.
  intros Hs. unfold limit.
  destruct (truediv target binning) as [s |]; [| reflexivity].
  destruct (getitem gamma0 band) as [g |]; [| reflexivity].
  destruct (getitem efficiency band) as [e |]; [| reflexivity].
  destruct (getitem sky_mu band) as [m |]; [| reflexivity].
  cbn [bind]. rewrite !truediv_ok by assumption. cbn [bind].
  rewrite ceil_multiple by assumption.
  rewrite rounded_time_true, rounded_time_multiple. reflexivity.
Qed.

(** X3.  With a positive sub-exposure time and [round_up] on, [snr] and
    [limit] compute with the least whole multiple of the sub-exposure time
    that is not below the requested total time: that multiple lies in
    [[t, t + sub)], no smaller multiple covers [t], and the result is the
    one for that multiple as the total time, with either [round_up] flag. *)
Theorem round_up_uses_next_multiple sci_mu band t target sub binning N ru :
  0 < sub ->
  t <= IZR (math_ceil (t / sub)) * sub < t + sub
  /\ (forall k : Z, t <= IZR k * sub -> (math_ceil (t / sub) <= k)%Z)
  /\ snr sci_mu band t sub binning N true
     = snr sci_mu band (IZR (math_ceil (t / sub)) * sub) sub binning N ru
  /\ limit band t target sub binning N true
     = limit band (IZR (math_ceil (t / sub)) * sub) target sub binning N ru.
Proof.
  intros Hs. split; [split | split; [| split]].
  - apply ceil_covers. assumption.
  - apply ceil_below_next. assumption.
  - intros k Hk. apply ceil_least.
    apply Rmult_le_reg_r with sub; [assumption |].
    replace (t / sub * sub) with t by (field; lra). assumption.
  - apply snr_round_up_at_multiple. lra.
  - apply limit_round_up_at_multiple. lra.
Qed.

Lemma round_up_uses_next_multiple_witness :
  1000 <= IZR (math_ceil (1000 / 600)) * 600 < 1000 + 600
  /\ (forall k : Z, 1000 <= IZR k * 600 -> (math_ceil (1000 / 600) <= k)%Z)
  /\ snr 25 "g" 1000 600 1 1 true
     = snr 25 "g" (IZR (math_ceil (1000 / 600)) * 600) 600 1 1 false
  /\ limit "g" 1000 5 600 1 1 true
     = limit "g" (IZR (math_ceil (1000 / 600)) * 600) 5 600 1 1 false.
Proof.
  apply (round_up_uses_next_multiple 25 "g" 1000 5 600 1 1 false). lra.
Defined.

(** ** Monotonicity of [limit] *)

Lemma sq_lt s1 s2 : 0 < s1 -> s1 < s2 -> s1 ^ 2 < s2 ^ 2.
Proof.
  intros H1 H12. simpl. rewrite !Rmult_1_r.
  apply Rmult_le_0_lt_compat; lra.
Qed.

(** The root taken by [limit] grows with the target. *)
Lemma limit_rate_sci_increases rk s1 s2 t sub ru :
  0 <= rk -> 0 < t -> 0 < sub -> 0 < s1 -> s1 < s2 ->
  limit_rate_sci rk s1 t sub ru < limit_rate_sci rk s2 t sub ru.
Proof.
  intros Hrk Ht Hs H1 H12.
  pose proof (rounded_time_pos ru t sub Ht Hs) as Ht'.
  assert (Hn : (1 <= math_ceil (t / sub))%Z)
    by (apply ceil_pos, Rdiv_lt_0_compat; assumption).
  pose proof (background_pos rk (rounded_time ru t (math_ceil (t / sub)) sub)
                (math_ceil (t / sub)) Hrk Ht') as HB.
  unfold limit_rate_sci, limit_discriminant. cbv zeta. unfold quad_c.
  set (t' := rounded_time ru t (math_ceil (t / sub)) sub) in *.
  set (B := rk * t' + dark_current * t'
            + (sqrt (IZR (math_ceil (t / sub))) * read_noise) ^ 2) in *.
  assert (HB' : 0 < B) by (apply HB; lia).
  rewrite !discriminant_expand. unfold quad_a, quad_b.
  pose proof (sq_lt s1 s2 H1 H12) as HS.
  assert (HS1 : 0 < s1 ^ 2) by (simpl; nra).
  set (S1 := s1 ^ 2) in *. set (S2 := s2 ^ 2) in *. clearbody S1 S2 B t'.
  assert (Ht2 : 0 < t' ^ 2) by (simpl; nra).
  assert (Ha : 0 < S1 * t') by (apply Rmult_lt_0_compat; assumption).
  assert (Hb : S1 * t' < S2 * t') by (apply Rmult_lt_compat_r; assumption).
  assert (Hc : (S1 * t') ^ 2 < (S2 * t') ^ 2) by (apply sq_lt; assumption).
  assert (Hd : t' ^ 2 * (S1 * B) < t' ^ 2 * (S2 * B)).
  { apply Rmult_lt_compat_l; [assumption |]. apply Rmult_lt_compat_r; assumption. }
  assert (He : 0 < t' ^ 2 * (S1 * B)).
  { apply Rmult_lt_0_compat; [assumption |]. apply Rmult_lt_0_compat; assumption. }
  assert (Hf : 0 < (S1 * t') ^ 2) by (simpl; nra).
  assert (Hq : sqrt ((S1 * t') ^ 2 + 4 * (t' ^ 2 * (S1 * B)))
               < sqrt ((S2 * t') ^ 2 + 4 * (t' ^ 2 * (S2 * B)))).
  { apply sqrt_lt_1_alt. lra. }
  unfold Rdiv. apply Rmult_lt_compat_r; [apply Rinv_0_lt_compat; lra | lra].
Qed.

(** A larger rate is a brighter surface: a smaller magnitude. *)
Lemma limit_mu_decreases c r1 r2 :
  0 < c -> 0 < r1 -> r1 < r2 ->
  -2.5 * (ln (r2 / c) / ln 10) < -2.5 * (ln (r1 / c) / ln 10).
Proof.
  intros Hc H1 H12. pose proof ln10_pos as Hl.
  assert (Hr : r1 / c < r2 / c).
  { unfold Rdiv. apply Rmult_lt_compat_r; [apply Rinv_0_lt_compat |]; assumption. }
  assert (Hx : 0 < r1 / c) by (apply Rdiv_lt_0_compat; assumption).
  pose proof (ln_increasing _ _ Hx Hr) as Hln.
  assert (ln (r1 / c) / ln 10 < ln (r2 / c) / ln 10).
  { unfold Rdiv at 1 3. apply Rmult_lt_compat_r; [apply Rinv_0_lt_compat |]; assumption. }
  lra.
Qed.

(** X4.  A more demanding target gives a brighter limit: on a known band
    with positive times, [binning] and [N], [limit] strictly decreases when
    the (positive) target SNR grows. *)
Theorem limit_decreases_with_target band g e m t sub binning N ru target1 target2 :
  band_entry band g e m ->
  0 < t -> 0 < sub -> 0 < binning -> 0 < N ->
  0 < target1 -> target1 < target2 ->
  exists mu1 mu2,
    limit band t target1 sub binning N ru = Ok mu1
    /\ limit band t target2 sub binning N ru = Ok mu2
    /\ mu2 < mu1.
Proof.
  intros Hb Ht Hs Hbin HN H1 H12.
  destruct (band_entry_pos _ _ _ _ Hb) as [Hg He].
  pose proof (rate_pos g N e m Hg He HN) as Hrk.
  assert (Hgne : 0 < g * N * e) by (repeat apply Rmult_lt_0_compat; assumption).
  assert (Hs1 : 0 < target1 / binning) by (apply Rdiv_lt_0_compat; assumption).
  assert (Hs12 : target1 / binning < target2 / binning).
  { unfold Rdiv. apply Rmult_lt_compat_r; [apply Rinv_0_lt_compat |]; assumption. }
  do 2 eexists. split; [| split].
  - apply limit_valid with (1 := Hb); assumption || lra.
  - apply limit_valid with (1 := Hb); assumption || lra.
  - apply limit_mu_decreases; [assumption | |].
    + apply limit_rate_sci_pos; assumption || lra.
    + apply limit_rate_sci_increases; assumption || lra.
Qed.

Lemma limit_decreases_with_target_witness :
  exists mu1 mu2,
    limit "g" 1000 5 600 1 1 true = Ok mu1
    /\ limit "g" 1000 10 600 1 1 true = Ok mu2
    /\ mu2 < mu1.
Proof.
  apply (limit_decreases_with_target "g" 1.79e9 0.34 22.0 1000 600 1 1 true 5 10).
  - repeat split.
  - lra.
  - lra.
  - lra.
  - lra.
  - lra.
  - lra.
Defined.

(** The SNR per unbinned pixel grows with the rate of the source ... *)
Lemma unbinned_rate_lt r1 r2 rk t (n : Z) :
  0 < r1 -> r1 < r2 -> 0 <= rk -> 0 < t -> (0 <= n)%Z ->
  r1 * t / sqrt (noise2 r1 rk t n) < r2 * t / sqrt (noise2 r2 rk t n).
Proof.
  intros H1 H12 Hrk Ht Hn.
  rewrite !noise2_split by assumption.
  pose proof (background_pos rk t n Hrk Ht Hn) as HB.
  set (B := rk * t + dark_current * t + (sqrt (IZR n) * read_noise) ^ 2) in *.
  clearbody B.
  assert (0 < r1 * t) by (apply Rmult_lt_0_compat; lra).
  assert (0 < r2 * t) by (apply Rmult_lt_0_compat; lra).
  apply div_sqrt_lt; try lra.
  replace (r1 * t * (r1 * t) * (r2 * t + B))
    with (t * t * (r1 * r2 * t * r1 + B * (r1 * r1))) by ring.
  replace (r2 * t * (r2 * t) * (r1 * t + B))
    with (t * t * (r1 * r2 * t * r2 + B * (r2 * r2))) by ring.
  apply Rmult_lt_compat_l; [apply Rmult_lt_0_compat; assumption |].
  assert (0 < r1 * r2 * t) by (repeat apply Rmult_lt_0_compat; lra).
  assert (r1 * r2 * t * r1 < r1 * r2 * t * r2)
    by (apply Rmult_lt_compat_l; assumption).
  assert (r1 * r1 < r2 * r2) by (apply Rmult_le_0_lt_compat; lra).
  assert (B * (r1 * r1) < B * (r2 * r2))
    by (apply Rmult_lt_compat_l; assumption).
  lra.
Qed.

(** ... and with the number of whole sub-exposures. *)
Lemma unbinned_count_lt rs rk sub (k1 k2 : Z) :
  0 < rs -> 0 <= rk -> 0 < sub -> (1 <= k1)%Z -> (k1 < k2)%Z ->
  rs * (IZR k1 * sub) / sqrt (noise2 rs rk (IZR k1 * sub) k1)
  < rs * (IZR k2 * sub) / sqrt (noise2 rs rk (IZR k2 * sub) k2).
Proof.
  intros Hrs Hrk Hs Hk1 Hk12.
  assert (H1 : 1 <= IZR k1) by (apply IZR_le; assumption).
  assert (H12 : IZR k1 < IZR k2) by (apply IZR_lt; assumption).
  pose proof (K_pos rs rk sub Hrs Hrk Hs) as HK.
  rewrite !noise2_multiple by lra.
  set (K := rs + rk + dark_current + read_noise ^ 2 / sub) in *.
  set (x := IZR k1 * sub). set (y := IZR k2 * sub).
  assert (Hx : 0 < x) by (apply Rmult_lt_0_compat; lra).
  assert (Hxy : x < y) by (apply Rmult_lt_compat_r; lra).
  clearbody x y K.
  apply div_sqrt_lt.
  - apply Rmult_le_pos; lra.
  - apply Rmult_le_pos; lra.
  - apply Rmult_lt_0_compat; lra.
  - apply Rmult_lt_0_compat; lra.
  - replace (rs * x * (rs * x) * (y * K)) with (rs * rs * K * (x * y) * x) by ring.
    replace (rs * y * (rs * y) * (x * K)) with (rs * rs * K * (x * y) * y) by ring.
    apply Rmult_lt_compat_l; [| assumption].
    repeat apply Rmult_lt_0_compat; lra.
Qed.

Lemma snr_at_limit_rate_multiple rk s sub (k : Z) ru :
  0 <= rk -> 0 < s -> 0 < sub -> (1 <= k)%Z ->
  limit_rate_sci rk s (IZR k * sub) sub ru * (IZR k * sub)
  / sqrt (noise2 (limit_rate_sci rk s (IZR k * sub) sub ru) rk (IZR k * sub) k)
  = s.
Proof.
  intros Hrk Hs Hsub Hk.
  assert (H1 : 1 <= IZR k) by (apply IZR_le; assumption).
  assert (Ht : 0 < IZR k * sub) by (apply Rmult_lt_0_compat; lra).
  pose proof (snr_at_limit_rate rk s (IZR k * sub) sub ru Hrk Hs Ht Hsub) as H.
  rewrite ceil_multiple in H by lra. rewrite rounded_time_multiple in H.
  exact H.
Qed.

(** Over more whole sub-exposures the root taken by [limit] is smaller. *)
Lemma limit_rate_sci_count_decreases rk s sub (k1 k2 : Z) ru ru' :
  0 <= rk -> 0 < s -> 0 < sub -> (1 <= k1)%Z -> (k1 < k2)%Z ->
  limit_rate_sci rk s (IZR k2 * sub) sub ru'
  < limit_rate_sci rk s (IZR k1 * sub) sub ru.
Proof.
  intros Hrk Hs Hsub Hk1 Hk12.
  assert (H1 : 1 <= IZR k1) by (apply IZR_le; assumption).
  assert (H2 : 1 <= IZR k2) by (apply IZR_le; lia).
  assert (Ht1 : 0 < IZR k1 * sub) by (apply Rmult_lt_0_compat; lra).
  assert (Ht2 : 0 < IZR k2 * sub) by (apply Rmult_lt_0_compat; lra).
  pose proof (snr_at_limit_rate_multiple rk s sub k1 ru Hrk Hs Hsub Hk1) as E1.
  assert (Hk2 : (1 <= k2)%Z) by lia.
  pose proof (snr_at_limit_rate_multiple rk s sub k2 ru' Hrk Hs Hsub Hk2) as E2.
  pose proof (limit_rate_sci_pos rk s (IZR k1 * sub) sub ru Ht1 Hsub
                (Rgt_not_eq _ _ Hs)) as Hr1.
  set (r1 := limit_rate_sci rk s (IZR k1 * sub) sub ru) in *.
  set (r2 := limit_rate_sci rk s (IZR k2 * sub) sub ru') in *.
  destruct (Rlt_le_dec r2 r1) as [Hlt | Hle]; [assumption | exfalso].
  pose proof (unbinned_count_lt r1 rk sub k1 k2 Hr1 Hrk Hsub Hk1 Hk12) as HA.
  assert (HB : r1 * (IZR k2 * sub) / sqrt (noise2 r1 rk (IZR k2 * sub) k2)
               <= r2 * (IZR k2 * sub) / sqrt (noise2 r2 rk (IZR k2 * sub) k2)).
  { destruct Hle as [Hlt | Heq].
    - apply Rlt_le. apply unbinned_rate_lt; assumption || lia.
    - rewrite Heq. apply Rle_refl. }
  lra.
Qed.

(** X5.  A longer exposure reaches a fainter limit: over whole numbers of
    sub-exposures [1 <= k1 < k2], on a known band with positive target,
    [binning] and [N], [limit] strictly increases with the total time. *)
Theorem limit_increases_with_exposure band g e m target sub binning N
    (k1 k2 : Z) ru ru' :
  band_entry band g e m ->
  0 < sub -> 0 < target -> 0 < binning -> 0 < N ->
  (1 <= k1)%Z -> (k1 < k2)%Z ->
  exists mu1 mu2,
    limit band (IZR k1 * sub) target sub binning N ru = Ok mu1
    /\ limit band (IZR k2 * sub) target sub binning N ru' = Ok mu2
    /\ mu1 < mu2.
Proof.
  intros Hb Hs Htg Hbin HN Hk1 Hk12.
  destruct (band_entry_pos _ _ _ _ Hb) as [Hg He].
  pose proof (rate_pos g N e m Hg He HN) as Hrk.
  assert (Hgne : 0 < g * N * e) by (repeat apply Rmult_lt_0_compat; assumption).
  assert (Hs0 : 0 < target / binning) by (apply Rdiv_lt_0_compat; assumption).
  assert (H1 : 1 <= IZR k1) by (apply IZR_le; assumption).
  assert (H2 : 1 <= IZR k2) by (apply IZR_le; lia).
  assert (Ht1 : 0 < IZR k1 * sub) by (apply Rmult_lt_0_compat; lra).
  assert (Ht2 : 0 < IZR k2 * sub) by (apply Rmult_lt_0_compat; lra).
  do 2 eexists. split; [| split].
  - apply limit_valid with (1 := Hb); assumption || lra.
  - apply limit_valid with (1 := Hb); assumption || lra.
  - apply limit_mu_decreases; [assumption | |].
    + apply limit_rate_sci_pos; assumption || lra.
    + apply limit_rate_sci_count_decreases; assumption || lra.
Qed.

Lemma limit_increases_with_exposure_witness :
  exists mu1 mu2,
    limit "g" (IZR 1 * 600) 5 600 1 1 true = Ok mu1
    /\ limit "g" (IZR 2 * 600) 5 600 1 1 true = Ok mu2
    /\ mu1 < mu2.
Proof.
  apply (limit_increases_with_exposure "g" 1.79e9 0.34 22.0 5 600 1 1 1 2 true true).
  - repeat split.
  - lra.
  - lra.
  - lra.
  - lra.
  - lia.
  - lia.
Defined.

(** ** More on [etc] *)

(** X6.  On valid input the correction loop of [etc] adds no
    sub-exposure: [etc] returns the closed-form estimate of the total time
    rounded up to whole sub-exposures, a total time in
    [[estimate, estimate + sub)]. *)
Theorem etc_returns_estimate_rounded_up band g e m sci_mu target sub binning N fuel :
  band_entry band g e m ->
  0 < sub -> 0 < target -> 1 <= binning -> 0 < N ->
  etc (S fuel) sci_mu band target sub binning N
  = Some (Ok (IZR (math_ceil (etc_time (rate g N e sci_mu) (rate g N e m)
                                (target / binning) sub / sub)) * sub,
              math_ceil (etc_time (rate g N e sci_mu) (rate g N e m)
                           (target / binning) sub / sub)))
  /\ etc_time (rate g N e sci_mu) (rate g N e m) (target / binning) sub
     <= IZR (math_ceil (etc_time (rate g N e sci_mu) (rate g N e m)
                          (target / binning) sub / sub)) * sub
     < etc_time (rate g N e sci_mu) (rate g N e m) (target / binning) sub + sub.
Proof.
  intros Hb Hs Ht Hbin HN. assert (Hbin' : 0 < binning) by lra.
  split; [| split].
  - eapply etc_returns_first_count; eassumption.
  - apply ceil_covers. assumption.
  - apply ceil_below_next. assumption.
Qed.

Lemma etc_returns_estimate_rounded_up_witness :
  etc 1 25 "g" 5 600 2 3
  = Some (Ok (IZR (math_ceil (etc_time (rate 1.79e9 3 0.34 25) (rate 1.79e9 3 0.34 22.0)
                                (5 / 2) 600 / 600)) * 600,
              math_ceil (etc_time (rate 1.79e9 3 0.34 25) (rate 1.79e9 3 0.34 22.0)
                           (5 / 2) 600 / 600)))
  /\ etc_time (rate 1.79e9 3 0.34 25) (rate 1.79e9 3 0.34 22.0) (5 / 2) 600
     <= IZR (math_ceil (etc_time (rate 1.79e9 3 0.34 25) (rate 1.79e9 3 0.34 22.0)
                          (5 / 2) 600 / 600)) * 600
     < etc_time (rate 1.79e9 3 0.34 25) (rate 1.79e9 3 0.34 22.0) (5 / 2) 600 + 600.
Proof.
  apply (etc_returns_estimate_rounded_up "g" 1.79e9 0.34 22.0 25 5 600 2 3 0).
  - repeat split.
  - lra.
  - lra.
  - lra.
  - lra.
Defined.

Lemma mu_of_rate g N e mu :
  0 < g -> 0 < e -> 0 < N ->
  -2.5 * (ln (rate g N e mu / (g * N * e)) / ln 10) = mu.
Proof.
  intros Hg He HN.
  replace (rate g N e mu / (g * N * e)) with (pow10 (-0.4 * mu))
    by (unfold rate; field; repeat split; lra).
  rewrite log10_pow10. lra.
Qed.

(** X7.  [etc] and [limit] agree: at the total time that [etc] returns for
    a source of surface brightness [mu], the limit for the same target is
    [mu] or fainter. *)
Theorem limit_at_etc_time_covers_source band g e m sci_mu target sub binning N
    fuel ru :
  band_entry band g e m ->
  0 < sub -> 0 < target -> 1 <= binning -> 0 < N ->
  exists (n : Z) mu,
    etc (S fuel) sci_mu band target sub binning N = Some (Ok (IZR n * sub, n))
    /\ limit band (IZR n * sub) target sub binning N ru = Ok mu
    /\ sci_mu <= mu.
Proof.
  intros Hb Hs Ht Hbin HN. assert (Hbin' : 0 < binning) by lra.
  destruct (band_entry_pos _ _ _ _ Hb) as [Hg He].
  pose proof (rate_pos g N e sci_mu Hg He HN) as Hrs.
  pose proof (rate_pos g N e m Hg He HN) as Hrk.
  assert (Hgne : 0 < g * N * e) by (repeat apply Rmult_lt_0_compat; assumption).
  assert (Hs0 : 0 < target / binning) by (apply Rdiv_lt_0_compat; assumption).
  assert (Hn : (1 <= math_ceil (etc_time (rate g N e sci_mu) (rate g N e m)
                                  (target / binning) sub / sub))%Z).
  { eapply first_count_pos; eassumption. }
  set (n := math_ceil (etc_time (rate g N e sci_mu) (rate g N e m)
                         (target / binning) sub / sub)) in *.
  assert (H1 : 1 <= IZR n) by (apply IZR_le; assumption).
  assert (Htn : 0 < IZR n * sub) by (apply Rmult_lt_0_compat; lra).
  exists n. eexists. split; [| split].
  - eapply etc_returns_first_count; eassumption.
  - apply limit_valid with (1 := Hb); assumption || lra.
  - pose proof (reaches_target (rate g N e sci_mu) (rate g N e m) (target / binning)
                  sub Hrs (Rlt_le _ _ Hrk) (Rlt_le _ _ Hs0) Hs n Hn
                  (ceil_covers _ _ Hs)) as Hreach.
    pose proof (snr_at_limit_rate_multiple (rate g N e m) (target / binning) sub n ru
                  (Rlt_le _ _ Hrk) Hs0 Hs Hn) as Heq.
    pose proof (limit_rate_sci_pos (rate g N e m) (target / binning) (IZR n * sub)
                  sub ru Htn Hs (Rgt_not_eq _ _ Hs0)) as Hr.
    set (r := limit_rate_sci (rate g N e m) (target / binning) (IZR n * sub) sub ru)
      in *.
    rewrite <- (mu_of_rate g N e sci_mu Hg He HN) at 1.
    destruct (Rlt_le_dec (rate g N e sci_mu) r) as [Hlt | Hle].
    + exfalso.
      pose proof (unbinned_rate_lt _ _ (rate g N e m) (IZR n * sub) n Hrs Hlt
                    (Rlt_le _ _ Hrk) Htn) as Hu.
      assert (Hn0 : (0 <= n)%Z) by lia. specialize (Hu Hn0). lra.
    + destruct Hle as [Hlt | Heq'].
      * apply Rlt_le. apply limit_mu_decreases; assumption.
      * rewrite Heq'. apply Rle_refl.
Qed.

Lemma limit_at_etc_time_covers_source_witness :
  exists (n : Z) mu,
    etc 1 25 "g" 5 600 2 3 = Some (Ok (IZR n * 600, n))
    /\ limit "g" (IZR n * 600) 5 600 2 3 true = Ok mu
    /\ 25 <= mu.
Proof.
  apply (limit_at_etc_time_covers_source "g" 1.79e9 0.34 22.0 25 5 600 2 3 0 true).
  - repeat split.
  - lra.
  - lra.
  - lra.
  - lra.
Defined.

(** ** [etc] with a negative binning factor *)

Lemma etc_time_opp rs rk s sub : etc_time rs rk (- s) sub = etc_time rs rk s sub.
Proof. unfold etc_time. f_equal. f_equal. ring. Qed.

Lemma etc_time_pos_neq rs rk s sub :
  0 < rs -> 0 <= rk -> 0 < sub -> s <> 0 -> 0 < etc_time rs rk s sub.
Proof.
  intros Hrs Hrk Hs Hs0.
  pose proof (K_pos rs rk sub Hrs Hrk Hs) as HK.
  pose proof (etc_time_scaled rs rk s sub Hrs Hs) as Hsc.
  assert (0 < rs * rs) by (apply Rmult_lt_0_compat; assumption).
  assert (0 < s * s) by nra.
  assert (0 < s * s * (rs + rk + dark_current + read_noise ^ 2 / sub))
    by (apply Rmult_lt_0_compat; assumption).
  apply Rmult_lt_reg_r with (rs * rs); [assumption |]. lra.
Qed.

(** With [binning < -1] the condition of the loop holds at every count
    from the estimate on, so no amount of fuel is enough. *)
Lemma etc_loop_never_stops band g e m sci_mu target sub binning N :
  band_entry band g e m ->
  0 < sub -> 0 < target -> binning < -1 -> 0 < N ->
  forall (fuel : nat) (k : Z),
    (1 <= k)%Z ->
    etc_time (rate g N e sci_mu) (rate g N e m) (target / binning) sub
    <= IZR k * sub ->
    etc_loop fuel sci_mu band (target / binning) sub binning N k = None.
Proof.
  intros Hb Hs Ht Hbin HN.
  destruct (band_entry_pos _ _ _ _ Hb) as [Hg He].
  pose proof (rate_pos g N e sci_mu Hg He HN) as Hrs.
  pose proof (rate_pos g N e m Hg He HN) as Hrk.
  assert (Hs0 : target / binning < 0).
  { apply Ropp_lt_cancel. rewrite Ropp_0.
    replace (- (target / binning)) with (target / - binning) by (field; lra).
    apply Rdiv_lt_0_compat; lra. }
  assert (Hst : - target < target / binning).
  { apply Rmult_lt_reg_r with (- binning); [lra |].
    replace (target / binning * - binning) with (- target) by (field; lra).
    replace (- target * - binning) with (target * binning) by ring. nra. }
  induction fuel as [| fuel IH]; intros k Hk HT; [reflexivity |].
  simpl.
  rewrite (snr_at_count _ _ _ _ _ _ _ _ _ _ Hb) by (assumption || lra).
  rewrite (binned_quotient binning).
  assert (Hreach : - (target / binning)
                   <= rate g N e sci_mu * (IZR k * sub)
                      / sqrt (noise2 (rate g N e sci_mu) (rate g N e m)
                                (IZR k * sub) k)).
  { apply reaches_target; try lra; [assumption |].
    rewrite etc_time_opp. assumption. }
  set (u := rate g N e sci_mu * (IZR k * sub)
            / sqrt (noise2 (rate g N e sci_mu) (rate g N e m) (IZR k * sub) k)) in *.
  assert (Hu : binning * u < target / binning).
  { assert (0 < u) by lra.
    assert (binning * u < - 1 * u) by (apply Rmult_lt_compat_r; lra).
    lra. }
  destruct (Rlt_dec (binning * u) (target / binning)) as [_ | Hn]; [| contradiction].
  apply IH; [lia |].
  rewrite plus_IZR. apply Rle_trans with (1 := HT).
  apply Rmult_le_compat_r; lra.
Qed.

(** X8.  A binning factor below -1 is not rejected: on otherwise valid
    input the loop of [etc] never ends, whatever the fuel. *)
Theorem etc_diverges_for_negative_binning band g e m sci_mu target sub binning N :
  band_entry band g e m ->
  0 < sub -> 0 < target -> binning < -1 -> 0 < N ->
  forall fuel, etc fuel sci_mu band target sub binning N = None.
Proof.
  intros Hb Hs Ht Hbin HN fuel.
  destruct (band_entry_pos _ _ _ _ Hb) as [Hg He].
  pose proof (rate_pos g N e sci_mu Hg He HN) as Hrs.
  pose proof (rate_pos g N e m Hg He HN) as Hrk.
  assert (Hs0 : target / binning <> 0).
  { unfold Rdiv. apply Rmult_integral_contrapositive_currified;
      [lra | apply Rinv_neq_0_compat; lra]. }
  unfold etc. rewrite (etc_estimate_entry _ _ _ _ _ _ _ _ _ Hb) by lra.
  apply etc_loop_never_stops with (1 := Hb); try assumption.
  - apply ceil_pos. apply Rdiv_lt_0_compat; [| assumption].
    apply etc_time_pos_neq; assumption || lra.
  - apply ceil_covers. assumption.
Qed.

Lemma etc_diverges_for_negative_binning_witness :
  etc 1000 25 "g" 5 600 (-2) 1 = None.
Proof.
  apply (etc_diverges_for_negative_binning "g" 1.79e9 0.34 22.0 25 5 600 (-2) 1).
  - repeat split.
  - lra.
  - lra.
  - lra.
  - lra.
Defined.

(** ** [limit] and [etc] at the edges of their domain *)

Lemma math_log10_nonpos x : x <= 0 -> math_log10 x = Raise ValueError.
Proof.
  intros Hx. unfold math_log10. destruct (Rle_dec x 0); [reflexivity | lra].
Qed.

Lemma limit_discriminant_zero_target rk t sub ru :
  limit_discriminant rk 0 t sub ru = 0.
Proof.
  unfold limit_discriminant, discriminant, quad_a, quad_b, quad_c. cbv zeta. ring.
Qed.

Lemma limit_sub_zero band g e m t target binning N ru :
  band_entry band g e m -> binning <> 0 ->
  limit band t target 0 binning N ru = Raise ZeroDivisionError.
Proof.
  intros [Hg [He Hm]] Hbin. unfold limit.
  rewrite truediv_ok by assumption. cbn [bind]. rewrite Hg, He, Hm. cbn [bind].
  rewrite truediv_zero. reflexivity.
Qed.

Lemma limit_no_time band g e m target sub binning N ru :
  band_entry band g e m -> binning <> 0 -> sub <> 0 ->
  limit band 0 target sub binning N ru = Raise ZeroDivisionError.
Proof.
  intros Hb Hbin Hs.
  assert (Hc : math_ceil (0 / sub) = 0%Z).
  { replace (0 / sub) with (IZR 0 * sub / sub) by (field; assumption).
    apply ceil_multiple. assumption. }
  rewrite (limit_entry _ _ _ _ _ _ _ _ _ _ Hb) by (assumption || (rewrite Hc; lia)).
  assert (Ht : rounded_time ru 0 (math_ceil (0 / sub)) sub = 0).
  { rewrite Hc. replace 0 with (IZR 0 * sub) at 1 by ring.
    rewrite rounded_time_multiple. ring. }
  assert (Hd : limit_discriminant (rate g N e m) (target / binning) 0 sub ru = 0).
  { unfold limit_discriminant. cbv zeta. rewrite Ht.
    unfold discriminant, quad_a, quad_b, quad_c. ring. }
  rewrite Hd, Ht. rewrite math_sqrt_ok by lra. cbn [bind].
  replace (2 * quad_a 0) with 0 by (unfold quad_a; ring).
  rewrite truediv_zero. reflexivity.
Qed.

Lemma limit_zero_target band g e m t sub binning N ru :
  band_entry band g e m ->
  0 < t -> 0 < sub -> binning <> 0 -> N <> 0 ->
  limit band t 0 sub binning N ru = Raise ValueError.
Proof.
  intros Hb Ht Hs Hbin HN.
  destruct (band_entry_pos _ _ _ _ Hb) as [Hg He].
  pose proof (rounded_time_pos ru t sub Ht Hs) as Ht'.
  assert (Hn : (1 <= math_ceil (t / sub))%Z)
    by (apply ceil_pos, Rdiv_lt_0_compat; assumption).
  rewrite (limit_entry _ _ _ _ _ _ _ _ _ _ Hb) by (lra || lia).
  replace (0 / binning) with 0 by (field; assumption).
  rewrite limit_discriminant_zero_target. rewrite math_sqrt_ok by lra. cbn [bind].
  rewrite truediv_ok by (unfold quad_a; simpl; nra). cbn [bind].
  rewrite truediv_ok.
  2: { apply Rmult_integral_contrapositive_currified;
         [apply Rmult_integral_contrapositive_currified |]; lra. }
  cbn [bind]. rewrite math_log10_nonpos; [reflexivity |].
  rewrite sqrt_0. unfold quad_b, Rdiv. apply Req_le. ring.
Qed.

Lemma limit_N_zero band g e m t target sub binning ru :
  band_entry band g e m ->
  0 < t -> 0 < sub -> binning <> 0 ->
  limit band t target sub binning 0 ru = Raise ZeroDivisionError.
Proof.
  intros Hb Ht Hs Hbin.
  pose proof (rounded_time_pos ru t sub Ht Hs) as Ht'.
  assert (Hn : (1 <= math_ceil (t / sub))%Z)
    by (apply ceil_pos, Rdiv_lt_0_compat; assumption).
  rewrite (limit_entry _ _ _ _ _ _ _ _ _ _ Hb) by (lra || lia).
  rewrite math_sqrt_ok.
  2: { apply limit_discriminant_nonneg; [| assumption | assumption].
       unfold rate. apply Req_le. ring. }
  cbn [bind]. rewrite truediv_ok by (unfold quad_a; simpl; nra). cbn [bind].
  replace (g * 0 * e) with 0 by ring. rewrite truediv_zero. reflexivity.
Qed.

(** X9.  [limit] checks none of its arguments; on a known band with
    [binning] not zero it raises [ZeroDivisionError] when [sub_exp_time] is
    0, when [total_exp_time] is 0, and when [N] is 0, and it raises the
    [ValueError] of [math.log10] when the target is 0: the root is then 0. *)
Theorem limit_edge_errors band g e m binning :
  band_entry band g e m -> binning <> 0 ->
  (forall t target N ru,
      limit band t target 0 binning N ru = Raise ZeroDivisionError)
  /\ (forall target sub N ru,
         sub <> 0 -> limit band 0 target sub binning N ru = Raise ZeroDivisionError)
  /\ (forall t target sub ru,
         0 < t -> 0 < sub ->
         limit band t target sub binning 0 ru = Raise ZeroDivisionError)
  /\ (forall t sub N ru,
         0 < t -> 0 < sub -> N <> 0 ->
         limit band t 0 sub binning N ru = Raise ValueError).
Proof.
  intros Hb Hbin. split; [| split; [| split]].
  - intros. eapply limit_sub_zero; eassumption.
  - intros. eapply limit_no_time; eassumption.
  - intros. eapply limit_N_zero; eassumption.
  - intros. eapply limit_zero_target; eassumption.
Qed.

Lemma limit_edge_errors_witness :
  (forall t target N ru, limit "g" t target 0 1 N ru = Raise ZeroDivisionError)
  /\ (forall target sub N ru,
         sub <> 0 -> limit "g" 0 target sub 1 N ru = Raise ZeroDivisionError)
  /\ (forall t target sub ru,
         0 < t -> 0 < sub -> limit "g" t target sub 1 0 ru = Raise ZeroDivisionError)
  /\ (forall t sub N ru,
         0 < t -> 0 < sub -> N <> 0 -> limit "g" t 0 sub 1 N ru = Raise ValueError).
Proof.
  apply (limit_edge_errors "g" 1.79e9 0.34 22.0 1).
  - repeat split.
  - lra.
Defined.

Lemma etc_sub_zero band g e m fuel sci_mu target binning N :
  band_entry band g e m -> binning <> 0 ->
  etc fuel sci_mu band target 0 binning N = Some (Raise ZeroDivisionError).
Proof.
  intros [Hg [He Hm]] Hbin. unfold etc, etc_estimate.
  rewrite truediv_ok by assumption. cbn [bind]. rewrite Hg, He, Hm. cbn [bind].
  rewrite truediv_zero. reflexivity.
Qed.

Lemma etc_N_zero band g e m fuel sci_mu target sub binning :
  band_entry band g e m -> binning <> 0 -> sub <> 0 ->
  etc fuel sci_mu band target sub binning 0 = Some (Raise ZeroDivisionError).
Proof.
  intros [Hg [He Hm]] Hbin Hs. unfold etc, etc_estimate.
  rewrite truediv_ok by assumption. cbn [bind]. rewrite Hg, He, Hm. cbn [bind].
  rewrite truediv_ok by assumption. cbn [bind].
  replace ((g * 0 * e * pow10 (-0.4 * sci_mu)) ^ 2) with 0 by ring.
  rewrite truediv_zero. reflexivity.
Qed.

Lemma etc_zero_target band g e m fuel sci_mu sub binning N :
  band_entry band g e m -> binning <> 0 -> 0 < sub -> 0 < N ->
  etc (S fuel) sci_mu band 0 sub binning N = Some (Raise ZeroDivisionError).
Proof.
  intros Hb Hbin Hs HN.
  destruct (band_entry_pos _ _ _ _ Hb) as [Hg He].
  pose proof (rate_pos g N e sci_mu Hg He HN) as Hrs.
  unfold etc. rewrite (etc_estimate_entry _ _ _ _ _ _ _ _ _ Hb) by lra.
  replace (0 / binning) with 0 by (field; assumption).
  assert (Hc : math_ceil (etc_time (rate g N e sci_mu) (rate g N e m) 0 sub / sub)
               = 0%Z).
  { replace (etc_time (rate g N e sci_mu) (rate g N e m) 0 sub / sub)
      with (IZR 0 * sub / sub) by (unfold etc_time; field; lra).
    apply ceil_multiple. lra. }
  rewrite Hc. simpl.
  rewrite (snr_at_zero _ _ _ _ _ _ _ _ _ Hb) by lra. reflexivity.
Qed.

(** X10.  [etc] checks none of its arguments; on a known band with
    [binning] not zero it raises [ZeroDivisionError] when [sub_exp_time] is
    0 and when [N] is 0, and also when the target is 0: the estimate is
    then 0 sub-exposures, and the first test of the loop calls [snr] with a
    total time of 0. *)
Theorem etc_edge_errors band g e m sci_mu binning :
  band_entry band g e m -> binning <> 0 ->
  (forall fuel target N,
      etc fuel sci_mu band target 0 binning N = Some (Raise ZeroDivisionError))
  /\ (forall fuel target sub,
         sub <> 0 ->
         etc fuel sci_mu band target sub binning 0 = Some (Raise ZeroDivisionError))
  /\ (forall fuel sub N,
         0 < sub -> 0 < N ->
         etc (S fuel) sci_mu band 0 sub binning N = Some (Raise ZeroDivisionError)).
Proof.
  intros Hb Hbin. split; [| split].
  - intros. eapply etc_sub_zero; eassumption.
  - intros. eapply etc_N_zero; eassumption.
  - intros. eapply etc_zero_target; eassumption.
Qed.

Lemma etc_edge_errors_witness :
  (forall fuel target N,
      etc fuel 25 "r" target 0 1 N = Some (Raise ZeroDivisionError))
  /\ (forall fuel target sub,
         sub <> 0 -> etc fuel 25 "r" target sub 1 0 = Some (Raise ZeroDivisionError))
  /\ (forall fuel sub N,
         0 < sub -> 0 < N ->
         etc (S fuel) 25 "r" 0 sub 1 N = Some (Raise ZeroDivisionError)).
Proof.
  apply (etc_edge_errors "r" 1.16e9 0.35 21.0 25 1).
  - repeat split.
  - lra.
Defined.

(** ** Monotonicity of [etc] *)

Lemma etc_time_target_le rs rk s1 s2 sub :
  0 < rs -> 0 <= rk -> 0 < sub -> 0 <= s1 -> s1 <= s2 ->
  etc_time rs rk s1 sub <= etc_time rs rk s2 sub.
Proof.
  intros Hrs Hrk Hs H1 H12.
  pose proof (K_pos rs rk sub Hrs Hrk Hs) as HK.
  unfold etc_time.
  set (K := rs + rk + dark_current + read_noise ^ 2 / sub) in *. clearbody K.
  assert (Hsq : s1 ^ 2 <= s2 ^ 2) by (apply pow_incr; lra).
  assert (0 < rs ^ 2) by (simpl; nra).
  unfold Rdiv. apply Rmult_le_compat_r; [apply Rlt_le, Rinv_0_lt_compat; assumption |].
  apply Rmult_le_compat_r; lra.
Qed.

Lemma etc_time_rate_le r1 r2 rk s sub :
  0 < r2 -> r2 <= r1 -> 0 <= rk -> 0 < sub ->
  etc_time r1 rk s sub <= etc_time r2 rk s sub.
Proof.
  intros H2 H21 Hrk Hs. unfold etc_time.
  assert (HC : 0 < rk + dark_current + read_noise ^ 2 / sub).
  { unfold dark_current, read_noise.
    assert (0 < 10.0 ^ 2 / sub) by (apply Rdiv_lt_0_compat; lra). lra. }
  replace (r1 + rk + dark_current + read_noise ^ 2 / sub)
    with (r1 + (rk + dark_current + read_noise ^ 2 / sub)) by ring.
  replace (r2 + rk + dark_current + read_noise ^ 2 / sub)
    with (r2 + (rk + dark_current + read_noise ^ 2 / sub)) by ring.
  set (C := rk + dark_current + read_noise ^ 2 / sub) in *. clearbody C.
  assert (Hs2 : 0 <= s ^ 2) by apply pow2_ge_0.
  assert (Hr1 : 0 < r1 ^ 2) by (simpl; nra).
  assert (Hr2 : 0 < r2 ^ 2) by (simpl; nra).
  replace (s ^ 2 * (r1 + C) / r1 ^ 2) with (s ^ 2 * ((r1 + C) / r1 ^ 2))
    by (unfold Rdiv; ring).
  replace (s ^ 2 * (r2 + C) / r2 ^ 2) with (s ^ 2 * ((r2 + C) / r2 ^ 2))
    by (unfold Rdiv; ring).
  apply Rmult_le_compat_l; [assumption |].
  apply cross_le; [assumption | assumption |].
  assert (0 <= r1 * r2 * (r1 - r2)) by (repeat apply Rmult_le_pos; lra).
  assert (0 <= C * ((r1 - r2) * (r1 + r2))) by (repeat apply Rmult_le_pos; lra).
  replace ((r2 + C) * r1 ^ 2)
    with ((r1 + C) * r2 ^ 2 + (r1 * r2 * (r1 - r2) + C * ((r1 - r2) * (r1 + r2))))
    by ring.
  lra.
Qed.

Lemma rate_decreases_le g N e mu1 mu2 :
  0 < g -> 0 < e -> 0 < N -> mu1 <= mu2 -> rate g N e mu2 <= rate g N e mu1.
Proof.
  intros Hg He HN [Hlt | ->]; [| apply Rle_refl].
  apply Rlt_le. unfold rate.
  apply Rmult_lt_compat_l; [repeat apply Rmult_lt_0_compat; assumption |].
  apply pow10_lt. lra.
Qed.

(** X11.  [etc] is monotone: on valid input, a fainter source or a higher
    target never needs fewer sub-exposures. *)
Theorem etc_monotone band g e m mu1 mu2 target1 target2 sub binning N fuel :
  band_entry band g e m ->
  0 < sub -> 1 <= binning -> 0 < N ->
  mu1 <= mu2 -> 0 < target1 -> target1 <= target2 ->
  exists n1 n2 : Z,
    etc (S fuel) mu1 band target1 sub binning N = Some (Ok (IZR n1 * sub, n1))
    /\ etc (S fuel) mu2 band target2 sub binning N = Some (Ok (IZR n2 * sub, n2))
    /\ (n1 <= n2)%Z.
Proof.
  intros Hb Hs Hbin HN Hmu Ht1 Ht12.
  assert (Hbin' : 0 < binning) by lra. assert (Ht2 : 0 < target2) by lra.
  destruct (band_entry_pos _ _ _ _ Hb) as [Hg He].
  pose proof (rate_pos g N e mu1 Hg He HN) as Hr1.
  pose proof (rate_pos g N e mu2 Hg He HN) as Hr2.
  pose proof (rate_pos g N e m Hg He HN) as Hrk.
  pose proof (rate_decreases_le g N e mu1 mu2 Hg He HN Hmu) as Hr.
  do 2 eexists. split; [| split].
  - eapply etc_returns_first_count; eassumption.
  - eapply etc_returns_first_count; eassumption.
  - unfold math_ceil. apply Zceil_le.
    unfold Rdiv. apply Rmult_le_compat_r;
      [apply Rlt_le, Rinv_0_lt_compat; assumption |].
    apply Rle_trans
      with (etc_time (rate g N e mu1) (rate g N e m) (target2 * / binning) sub).
    + apply etc_time_target_le; try lra.
      * apply Rlt_le. apply Rmult_lt_0_compat; [| apply Rinv_0_lt_compat]; lra.
      * apply Rmult_le_compat_r; [apply Rlt_le, Rinv_0_lt_compat |]; lra.
    + apply etc_time_rate_le; lra.
Qed.

Lemma etc_monotone_witness :
  exists n1 n2 : Z,
    etc 1 24 "g" 5 600 1 1 = Some (Ok (IZR n1 * 600, n1))
    /\ etc 1 25 "g" 10 600 1 1 = Some (Ok (IZR n2 * 600, n2))
    /\ (n1 <= n2)%Z.
Proof.
  apply (etc_monotone "g" 1.79e9 0.34 22.0 24 25 5 10 600 1 1 0).
  - repeat split.
  - lra.
  - lra.
  - lra.
  - lra.
  - lra.
  - lra.
Defined.

(** ** [snr] and the number of apertures *)

(** X12.  More co-added apertures give a higher SNR: on a known band with
    positive times and [binning], [snr] strictly increases with [N > 0]. *)
Theorem snr_increases_with_N band g e m sci_mu t sub binning N1 N2 ru :
  band_entry band g e m ->
  0 < t -> 0 < sub -> 0 < binning -> 0 < N1 -> N1 < N2 ->
  exists v1 v2,
    snr sci_mu band t sub binning N1 ru = Ok v1
    /\ snr sci_mu band t sub binning N2 ru = Ok v2
    /\ v1 < v2.
Proof.
  intros Hb Ht Hs Hbin HN1 HN12.
  destruct (band_entry_pos _ _ _ _ Hb) as [Hg He].
  pose proof (rounded_time_pos ru t sub Ht Hs) as Ht'.
  assert (Hn : (1 <= math_ceil (t / sub))%Z)
    by (apply ceil_pos, Rdiv_lt_0_compat; assumption).
  do 2 eexists. split; [| split].
  - apply (snr_entry_ok _ _ _ _ sci_mu t sub binning N1 ru Hb); lra.
  - apply (snr_entry_ok _ _ _ _ sci_mu t sub binning N2 ru Hb); lra.
  - rewrite !(binned_quotient binning). apply Rmult_lt_compat_l; [assumption |].
    set (t' := rounded_time ru t (math_ceil (t / sub)) sub) in *.
    set (n := math_ceil (t / sub)) in *.
    assert (H1 : 1 <= IZR n) by (apply IZR_le; assumption).
    pose proof (pow10_pos (-0.4 * sci_mu)) as Hp.
    pose proof (pow10_pos (-0.4 * m)) as Hq.
    unfold noise2, rate, dark_current, read_noise.
    set (a := g * e * pow10 (-0.4 * sci_mu)).
    set (A := (g * e * pow10 (-0.4 * sci_mu) + g * e * pow10 (-0.4 * m)) * t').
    set (D := 0.04 * t' + IZR n * 10.0 ^ 2).
    assert (Ha : 0 < a) by (unfold a; repeat apply Rmult_lt_0_compat; assumption).
    assert (HA : 0 < A).
    { unfold A. apply Rmult_lt_0_compat; [| assumption].
      assert (0 < g * e * pow10 (-0.4 * sci_mu))
        by (repeat apply Rmult_lt_0_compat; assumption).
      assert (0 < g * e * pow10 (-0.4 * m))
        by (repeat apply Rmult_lt_0_compat; assumption).
      lra. }
    assert (HD : 0 < D) by (unfold D; lra).
    replace (g * N1 * e * pow10 (-0.4 * sci_mu) * t') with (N1 * (a * t'))
      by (unfold a; ring).
    replace (g * N2 * e * pow10 (-0.4 * sci_mu) * t') with (N2 * (a * t'))
      by (unfold a; ring).
    replace (N1 * (a * t') + g * N1 * e * pow10 (-0.4 * m) * t' + 0.04 * t'
             + IZR n * 10.0 ^ 2) with (N1 * A + D) by (unfold a, A, D; ring).
    replace (N2 * (a * t') + g * N2 * e * pow10 (-0.4 * m) * t' + 0.04 * t'
             + IZR n * 10.0 ^ 2) with (N2 * A + D) by (unfold a, A, D; ring).
    assert (Hat : 0 < a * t') by (apply Rmult_lt_0_compat; assumption).
    set (c := a * t') in *. clearbody c A D.
    assert (0 < N1 * A) by (apply Rmult_lt_0_compat; assumption).
    assert (0 < N2 * A) by (apply Rmult_lt_0_compat; lra).
    apply div_sqrt_lt.
    + apply Rmult_le_pos; lra.
    + apply Rmult_le_pos; lra.
    + lra.
    + lra.
    + replace (N1 * c * (N1 * c) * (N2 * A + D))
        with (c * c * (A * (N1 * N2) * N1 + D * (N1 * N1))) by ring.
      replace (N2 * c * (N2 * c) * (N1 * A + D))
        with (c * c * (A * (N1 * N2) * N2 + D * (N2 * N2))) by ring.
      apply Rmult_lt_compat_l; [apply Rmult_lt_0_compat; assumption |].
      assert (0 < A * (N1 * N2)) by (repeat apply Rmult_lt_0_compat; lra).
      assert (A * (N1 * N2) * N1 < A * (N1 * N2) * N2)
        by (apply Rmult_lt_compat_l; assumption).
      assert (N1 * N1 < N2 * N2) by (apply Rmult_le_0_lt_compat; lra).
      assert (D * (N1 * N1) < D * (N2 * N2))
        by (apply Rmult_lt_compat_l; assumption).
      lra.
Qed.

Lemma snr_increases_with_N_witness :
  exists v1 v2,
    snr 25 "g" 1000 600 1 1 true = Ok v1
    /\ snr 25 "g" 1000 600 1 2 true = Ok v2
    /\ v1 < v2.
Proof.
  apply (snr_increases_with_N "g" 1.79e9 0.34 22.0 25 1000 600 1 1 2 true).
  - repeat split.
  - lra.
  - lra.
  - lra.
  - lra.
  - lra.
Defined.

(** ** The shot-noise bound *)

(** X13.  On a known band with positive times, [binning] and [N], the SNR
    is positive and stays strictly below the photon-noise limit
    [binning * sqrt(signal)], the signal being the source rate times the
    total time used. *)
Theorem snr_below_shot_noise_limit band g e m sci_mu t sub binning N ru :
  band_entry band g e m ->
  0 < t -> 0 < sub -> 0 < binning -> 0 < N ->
  exists v,
    snr sci_mu band t sub binning N ru = Ok v
    /\ 0 < v
    /\ v < binning
           * sqrt (rate g N e sci_mu * rounded_time ru t (math_ceil (t / sub)) sub).
Proof.
  intros Hb Ht Hs Hbin HN.
  destruct (band_entry_pos _ _ _ _ Hb) as [Hg He].
  pose proof (rate_pos g N e sci_mu Hg He HN) as Hrs.
  pose proof (rate_pos g N e m Hg He HN) as Hrk.
  pose proof (rounded_time_pos ru t sub Ht Hs) as Ht'.
  assert (Hn : (1 <= math_ceil (t / sub))%Z)
    by (apply ceil_pos, Rdiv_lt_0_compat; assumption).
  eexists. split; [| split].
  - apply (snr_entry_ok _ _ _ _ sci_mu t sub binning N ru Hb); lra.
  - rewrite (binned_quotient binning). apply Rmult_lt_0_compat; [assumption |].
    apply Rdiv_lt_0_compat; [apply Rmult_lt_0_compat; assumption |].
    apply sqrt_lt_R0, noise2_pos; lra || lia.
  - rewrite (binned_quotient binning). apply Rmult_lt_compat_l; [assumption |].
    set (t' := rounded_time ru t (math_ceil (t / sub)) sub) in *.
    set (n := math_ceil (t / sub)) in *.
    assert (HS : 0 < rate g N e sci_mu * t') by (apply Rmult_lt_0_compat; assumption).
    rewrite noise2_split by lia.
    pose proof (background_pos (rate g N e m) t' n (Rlt_le _ _ Hrk) Ht') as HB.
    assert (HB' : 0 < rate g N e m * t' + dark_current * t'
                      + (sqrt (IZR n) * read_noise) ^ 2) by (apply HB; lia).
    set (S := rate g N e sci_mu * t') in *.
    set (B := rate g N e m * t' + dark_current * t'
              + (sqrt (IZR n) * read_noise) ^ 2) in *.
    clearbody S B.
    apply div_sqrt_lt_r; try lra.
    + apply sqrt_pos.
    + rewrite sqrt_sqrt by lra.
      assert (S * S < S * (S + B)) by (apply Rmult_lt_compat_l; lra). lra.
Qed.

Lemma snr_below_shot_noise_limit_witness :
  exists v,
    snr 3.0 "g" 150000 600 1 1 true = Ok v
    /\ 0 < v
    /\ v < 1 * sqrt (rate 1.79e9 1 0.34 3.0
                     * rounded_time true 150000 (math_ceil (150000 / 600)) 600).
Proof.
  apply (snr_below_shot_noise_limit "g" 1.79e9 0.34 22.0 3.0 150000 600 1 1 true).
  - repeat split.
  - lra.
  - lra.
  - lra.
  - lra.
Defined.

(** ** The binning factor only rescales the target *)



